(** * The application state orchestrator of learn-ai (context/AppContext.tsx)

    A shallow embedding of the [AppProvider] handlers.  React state is a
    record, every handler is a computation in a small state-and-trace monad,
    and the collaborators that live outside the orchestrator (the generation
    client, the storage service, the view callbacks, the console) appear as
    events in the trace.  An awaited promise is an [Outcome] handed to the
    continuation of the handler. *)

From stdpp Require Import base option list sets strings.
From Stdlib Require Import ZArith Lia.
From stdpp Require Import pretty.

Local Open Scope string_scope.
Local Open Scope list_scope.
Local Open Scope Z_scope.

(** ** Data model *)

(** Modelled from the spec: [KnowledgeLevel] is declared in the absent
    [types] module; the handlers only pass it on, a string carries it. *)
Definition KnowledgeLevel : Type := string.

(** Modelled from the spec: [Flashcard], [QuizData] and [RelatedTopic] are
    declared in the absent [types] module; they are payloads of the
    generation client that the orchestrator stores without looking inside. *)
Definition Flashcard : Type := string.
Definition QuizData : Type := string.
Definition RelatedTopic : Type := string.

(** Modelled from the spec: a lesson has content, optional notes and an
    optional flashcard set ([types] is absent; the handlers read [id] and
    write [notes] and [flashcards]). *)
Module Lesson.
Record t : Type := mk {
  id : string;
  content : string;
  notes : option string;
  flashcards : option (list Flashcard)
}.
End Lesson.

(** Modelled from the spec: a module holds an ordered sequence of lessons. *)
Module CourseModule.
Record t : Type := mk {
  title : string;
  lessons : list Lesson.t
}.
End CourseModule.

(** Modelled from the spec: a course has an id, a title, a knowledge level
    and an ordered sequence of modules. *)
Module Course.
Record t : Type := mk {
  id : string;
  title : string;
  knowledgeLevel : KnowledgeLevel;
  modules : list CourseModule.t
}.
End Course.

(** Modelled from the spec: a folder has an id, a name and the list of the
    ids of its courses. *)
Module Folder.
Record t : Type := mk {
  id : string;
  name : string;
  courseIds : list string
}.
End Folder.

(** Modelled from the spec: a project has an id and a topic-derived scaffold
    with ordered steps; the handlers read [id] only. *)
Module Project.
Record t : Type := mk {
  id : string;
  topic : string;
  steps : list string
}.
End Project.

(** [ChatMessage]: [{ role: 'user' | 'model', content }]. *)
Inductive Role : Type := user | model.

Module ChatMessage.
Record t : Type := mk {
  role : Role;
  content : string
}.
End ChatMessage.

(** *** Keyed collections in enumeration order

    A JS [Map] enumerates its entries in insertion order and [for ... in]
    walks the own keys of an object in the engine's property order; both are
    kept as association lists in that order.  [al_set] is [map.set(k, v)]
    and [{ ...o, [k]: v }]: an existing key keeps its place, a new one goes
    last (ids are not array indices, which an object would list first).
    [al_delete] is [map.delete(k)] and [delete o[k]]. *)
Section AssocList.
Context {V : Type}.

Fixpoint al_lookup (k : string) (l : list (string * V)) : option V :=
  match l with
  | [] => None
  | (k', v) :: l => if decide (k' = k) then Some v else al_lookup k l
  end.

Definition al_has (k : string) (l : list (string * V)) : bool :=
  bool_decide (is_Some (al_lookup k l)).

Definition al_delete (k : string) (l : list (string * V)) : list (string * V) :=
  filter (λ e, e.1 ≠ k) l.

Fixpoint al_set (k : string) (v : V) (l : list (string * V)) : list (string * V) :=
  match l with
  | [] => [(k, v)]
  | (k', v') :: l => if decide (k' = k) then (k, v) :: l else (k', v') :: al_set k v l
  end.

Definition al_keys (l : list (string * V)) : list string := fst <$> l.
Definition al_values (l : list (string * V)) : list V := snd <$> l.
End AssocList.

(** Modelled from the spec: [Progress] maps a lesson id to its completion
    timestamp (a JS [Map], as [progressMap.values()] shows); timestamps are
    integral numbers. *)
Definition Progress : Type := list (string * Z).

(** Modelled from the spec: [ProjectProgress] maps a step id to its
    completion state. *)
Definition ProjectProgress : Type := list (string * Z).

Record ExploreModalState : Type := mkExploreModalState {
  em_isOpen : bool;
  em_isLoading : bool;
  em_courseTitle : string;
  em_topics : list RelatedTopic
}.

Record PreloadedTestState : Type := mkPreloadedTestState {
  pt_topic : string;
  pt_difficulty : KnowledgeLevel;
  pt_questions : list QuizData
}.

(** [SocraticState] of App.tsx. *)
Record SocraticState : Type := mkSocraticState {
  isOpen : bool;
  originalText : string;
  history : list ChatMessage.t;
  isLoading : bool
}.

(** The [useState] cells of [AppProvider]. *)
Record AppState : Type := mkAppState {
  courses : list Course.t;
  folders : list Folder.t;
  projects : list Project.t;
  progressData : list (string * Progress);
  projectProgressData : list (string * ProjectProgress);
  activeCourse : option Course.t;
  activeProject : option Project.t;
  topic : string;
  error : option string;
  funFacts : list string;
  generatingLessonFlashcardId : option string;
  preloadedTest : option PreloadedTestState;
  exploreModalState : ExploreModalState
}.

(** Everything a handler can read or write: the provider's state, the
    Socratic session held by [App], and the progress records kept by the
    storage service. *)
Record World : Type := mkWorld {
  app : AppState;
  socratic : SocraticState;
  storedProgress : list (string * Progress)
}.

(** ** Collaborators *)

(** What a rejected promise carries: an [Error] with its message, or any
    other thrown value ([e instanceof Error] is false for it). *)
Inductive Thrown : Type :=
| ErrorObject (message : string)
| OtherValue.

Inductive Outcome (A : Type) : Type :=
| Resolved (value : A)
| Rejected (reason : Thrown).
Arguments Resolved {A} value.
Arguments Rejected {A} reason.

(** The view-transition callbacks the handlers receive as arguments. *)
Inductive Callback : Type :=
| setViewCourse | setViewGenerating | setViewCanvas
| setViewProject | setViewProjects | navigateToAssessment.

#[global] Instance Callback_eq_dec : EqDecision Callback.
Proof. solve_decision. Defined.

(** Calls that leave the orchestrator. *)
Inductive Event : Type :=
| Invoke (cb : Callback)
| GeminiGenerateFunFacts (topic : string)
| GeminiGenerateCourse (topic : string) (level : KnowledgeLevel)
| GeminiGenerateProjectScaffold (topic : string)
| GeminiGenerateLessonFlashcards (lesson : Lesson.t)
| GeminiGenerateTestFromCourse (course : Course.t)
| GeminiContinueSocraticDialogue (originalText : string) (history : list ChatMessage.t)
| StorageSaveCourse (course : Course.t)
| StorageUpdateCourse (course : Course.t)
| StorageDeleteCourse (courseId : string)
| StorageSaveFolders (folders : list Folder.t)
| StorageSaveProject (project : Project.t)
| StorageDeleteProgress (courseId : string)
| StorageToggleLessonProgress (courseId lessonId : string)
| ConsoleError (text : string) (reason : Thrown).

Definition is_invoke (cb : Callback) (e : Event) : bool :=
  match e with
  | Invoke cb' => bool_decide (cb' = cb)
  | _ => false
  end.

(** How many times a callback was invoked in a trace. *)
Definition invocations (cb : Callback) (tr : list Event) : nat :=
  length (filter (λ e, is_invoke cb e) tr).

(** ** The handler monad: state passing plus a trace of events *)

Definition M (A : Type) : Type := World → A * World * list Event.

#[global] Instance M_ret : MRet M := λ A a w, (a, w, []).

#[global] Instance M_bind : MBind M := λ A B k m w,
  let '(a, w1, t1) := m w in
  let '(b, w2, t2) := k a w1 in
  (b, w2, t1 ++ t2).

Definition exec (m : M unit) (w : World) : World := (m w).1.2.
Definition trace (m : M unit) (w : World) : list Event := (m w).2.

Definition emit (e : Event) : M unit := λ w, (tt, w, [e]).
Definition render : M AppState := λ w, (app w, w, []).
Definition modify (f : AppState → AppState) : M unit :=
  λ w, (tt, mkWorld (f (app w)) (socratic w) (storedProgress w), []).
Definition skip : M unit := mret tt.

(** ** The state setters

    [setX v] is React's [setX(v)] and [setX_from f] is [setX(prev => f prev)],
    which reads the cell at the moment the update is applied. *)

Definition setCourses_from (f : list Course.t → list Course.t) : M unit :=
  modify (λ s, mkAppState (f (courses s)) (folders s) (projects s) (progressData s) (projectProgressData s) (activeCourse s) (activeProject s) (topic s) (error s) (funFacts s) (generatingLessonFlashcardId s) (preloadedTest s) (exploreModalState s)).
Definition setCourses (v : list Course.t) : M unit := setCourses_from (λ _, v).

Definition setFolders_from (f : list Folder.t → list Folder.t) : M unit :=
  modify (λ s, mkAppState (courses s) (f (folders s)) (projects s) (progressData s) (projectProgressData s) (activeCourse s) (activeProject s) (topic s) (error s) (funFacts s) (generatingLessonFlashcardId s) (preloadedTest s) (exploreModalState s)).
Definition setFolders (v : list Folder.t) : M unit := setFolders_from (λ _, v).

Definition setProjects_from (f : list Project.t → list Project.t) : M unit :=
  modify (λ s, mkAppState (courses s) (folders s) (f (projects s)) (progressData s) (projectProgressData s) (activeCourse s) (activeProject s) (topic s) (error s) (funFacts s) (generatingLessonFlashcardId s) (preloadedTest s) (exploreModalState s)).
Definition setProjects (v : list Project.t) : M unit := setProjects_from (λ _, v).

Definition setProgressData_from (f : list (string * Progress) → list (string * Progress)) : M unit :=
  modify (λ s, mkAppState (courses s) (folders s) (projects s) (f (progressData s)) (projectProgressData s) (activeCourse s) (activeProject s) (topic s) (error s) (funFacts s) (generatingLessonFlashcardId s) (preloadedTest s) (exploreModalState s)).
Definition setProgressData (v : list (string * Progress)) : M unit := setProgressData_from (λ _, v).

Definition setProjectProgressData_from (f : list (string * ProjectProgress) → list (string * ProjectProgress)) : M unit :=
  modify (λ s, mkAppState (courses s) (folders s) (projects s) (progressData s) (f (projectProgressData s)) (activeCourse s) (activeProject s) (topic s) (error s) (funFacts s) (generatingLessonFlashcardId s) (preloadedTest s) (exploreModalState s)).
Definition setProjectProgressData (v : list (string * ProjectProgress)) : M unit := setProjectProgressData_from (λ _, v).

Definition setActiveCourse_from (f : option Course.t → option Course.t) : M unit :=
  modify (λ s, mkAppState (courses s) (folders s) (projects s) (progressData s) (projectProgressData s) (f (activeCourse s)) (activeProject s) (topic s) (error s) (funFacts s) (generatingLessonFlashcardId s) (preloadedTest s) (exploreModalState s)).
Definition setActiveCourse (v : option Course.t) : M unit := setActiveCourse_from (λ _, v).

Definition setActiveProject_from (f : option Project.t → option Project.t) : M unit :=
  modify (λ s, mkAppState (courses s) (folders s) (projects s) (progressData s) (projectProgressData s) (activeCourse s) (f (activeProject s)) (topic s) (error s) (funFacts s) (generatingLessonFlashcardId s) (preloadedTest s) (exploreModalState s)).
Definition setActiveProject (v : option Project.t) : M unit := setActiveProject_from (λ _, v).

Definition setTopic_from (f : string → string) : M unit :=
  modify (λ s, mkAppState (courses s) (folders s) (projects s) (progressData s) (projectProgressData s) (activeCourse s) (activeProject s) (f (topic s)) (error s) (funFacts s) (generatingLessonFlashcardId s) (preloadedTest s) (exploreModalState s)).
Definition setTopic (v : string) : M unit := setTopic_from (λ _, v).

Definition setError_from (f : option string → option string) : M unit :=
  modify (λ s, mkAppState (courses s) (folders s) (projects s) (progressData s) (projectProgressData s) (activeCourse s) (activeProject s) (topic s) (f (error s)) (funFacts s) (generatingLessonFlashcardId s) (preloadedTest s) (exploreModalState s)).
Definition setError (v : option string) : M unit := setError_from (λ _, v).

Definition setFunFacts_from (f : list string → list string) : M unit :=
  modify (λ s, mkAppState (courses s) (folders s) (projects s) (progressData s) (projectProgressData s) (activeCourse s) (activeProject s) (topic s) (error s) (f (funFacts s)) (generatingLessonFlashcardId s) (preloadedTest s) (exploreModalState s)).
Definition setFunFacts (v : list string) : M unit := setFunFacts_from (λ _, v).

Definition setGeneratingLessonFlashcardId_from (f : option string → option string) : M unit :=
  modify (λ s, mkAppState (courses s) (folders s) (projects s) (progressData s) (projectProgressData s) (activeCourse s) (activeProject s) (topic s) (error s) (funFacts s) (f (generatingLessonFlashcardId s)) (preloadedTest s) (exploreModalState s)).
Definition setGeneratingLessonFlashcardId (v : option string) : M unit := setGeneratingLessonFlashcardId_from (λ _, v).

Definition setPreloadedTest_from (f : option PreloadedTestState → option PreloadedTestState) : M unit :=
  modify (λ s, mkAppState (courses s) (folders s) (projects s) (progressData s) (projectProgressData s) (activeCourse s) (activeProject s) (topic s) (error s) (funFacts s) (generatingLessonFlashcardId s) (f (preloadedTest s)) (exploreModalState s)).
Definition setPreloadedTest (v : option PreloadedTestState) : M unit := setPreloadedTest_from (λ _, v).

Definition setExploreModalState_from (f : ExploreModalState → ExploreModalState) : M unit :=
  modify (λ s, mkAppState (courses s) (folders s) (projects s) (progressData s) (projectProgressData s) (activeCourse s) (activeProject s) (topic s) (error s) (funFacts s) (generatingLessonFlashcardId s) (preloadedTest s) (f (exploreModalState s))).
Definition setExploreModalState (v : ExploreModalState) : M unit := setExploreModalState_from (λ _, v).

Definition setSocraticState_from (f : SocraticState → SocraticState) : M unit :=
  λ w, (tt, mkWorld (app w) (f (socratic w)) (storedProgress w), []).
Definition setSocraticState (v : SocraticState) : M unit :=
  setSocraticState_from (λ _, v).

(** ** Small pieces of JavaScript *)

(** [if (id)] on a [string | null]: [null] and the empty string are falsy. *)
Definition truthy (id : option string) : option string :=
  match id with
  | Some s => if decide (s = "") then None else Some s
  | None => None
  end.

(** [e instanceof Error ? e.message : fallback]. *)
Definition messageOr (fallback : string) (e : Thrown) : string :=
  match e with
  | ErrorObject message => message
  | OtherValue => fallback
  end.

(** [xs.find(p)] and [xs.findIndex(p)]. *)
Definition js_find {A} (P : A → Prop) `{∀ x, Decision (P x)} (xs : list A) : option A :=
  snd <$> list_find P xs.
Definition js_findIndex {A} (P : A → Prop) `{∀ x, Decision (P x)} (xs : list A) : option nat :=
  fst <$> list_find P xs.

(** [{ ...f, courseIds: f.courseIds.filter(id => id !== courseId) }]. *)
Definition withoutCourse (courseId : string) (f : Folder.t) : Folder.t :=
  Folder.mk (Folder.id f) (Folder.name f)
            (filter (λ id, id ≠ courseId) (Folder.courseIds f)).

(** [f.courseIds.push(courseId)] on a folder object owned by the caller. *)
Definition pushCourse (courseId : string) (f : Folder.t) : Folder.t :=
  Folder.mk (Folder.id f) (Folder.name f) (Folder.courseIds f ++ [courseId]).

(** [modules.map(m => ({ ...m, lessons: m.lessons.map(l => l.id === lessonId ? g l : l) }))]. *)
Definition mapLesson (lessonId : string) (g : Lesson.t → Lesson.t)
    (ms : list CourseModule.t) : list CourseModule.t :=
  (λ m, CourseModule.mk (CourseModule.title m)
          ((λ l, if decide (Lesson.id l = lessonId) then g l else l)
             <$> CourseModule.lessons m)) <$> ms.

Definition withNotes (note : string) (l : Lesson.t) : Lesson.t :=
  Lesson.mk (Lesson.id l) (Lesson.content l) (Some note) (Lesson.flashcards l).

Definition withFlashcards (cards : list Flashcard) (l : Lesson.t) : Lesson.t :=
  Lesson.mk (Lesson.id l) (Lesson.content l) (Lesson.notes l) (Some cards).

Definition withModules (ms : list CourseModule.t) (c : Course.t) : Course.t :=
  Course.mk (Course.id c) (Course.title c) (Course.knowledgeLevel c) ms.

(** [prev.map(c => c.id === updatedCourse.id ? updatedCourse : c)]. *)
Definition replaceCourse (updatedCourse : Course.t) (prev : list Course.t) : list Course.t :=
  (λ c, if decide (Course.id c = Course.id updatedCourse) then updatedCourse else c) <$> prev.

(** ** The storage service's progress records *)

(** Modelled from the spec: the toggle inside the absent
    [storageService.toggleLessonProgress].  "Toggling a lesson inserts or
    removes its entry", and the entry maps the lesson id to its completion
    timestamp, the clock reading [now] of the call. *)
Definition toggleEntry (now : Z) (lessonId : string) (courseProgress : Progress) : Progress :=
  if al_has lessonId courseProgress
  then al_delete lessonId courseProgress
  else al_set lessonId now courseProgress.

(** Modelled from the spec: [storageService.toggleLessonProgress] is absent.
    It is a read-modify-write of the single progress record of the course
    (an empty map when there is none yet): the record is toggled, written
    back and returned. *)
Definition toggleLessonProgress (now : Z) (courseId lessonId : string) : M Progress :=
  λ w,
    let courseProgress := default [] (al_lookup courseId (storedProgress w)) in
    let newProgress := toggleEntry now lessonId courseProgress in
    (newProgress,
     mkWorld (app w) (socratic w) (al_set courseId newProgress (storedProgress w)),
     [StorageToggleLessonProgress courseId lessonId]).

(** Modelled from the spec: [storageService.deleteProgress] is absent; it
    deletes the progress record of the course. *)
Definition deleteProgress (courseId : string) : M unit :=
  λ w,
    (tt,
     mkWorld (app w) (socratic w) (al_delete courseId (storedProgress w)),
     [StorageDeleteProgress courseId]).

(** ** The derived value [lastActiveCourseId] *)

(** The inner loop [for (const timestamp of progressMap.values())] on the
    pair [(lastTimestamp, lastCourseId)]. *)
Definition scanProgressMap (courseId : string) (progressMap : Progress)
    (acc : Z * option string) : Z * option string :=
  fold_left (λ acc timestamp,
               if bool_decide (timestamp > acc.1) then (timestamp, Some courseId) else acc)
            (al_values progressMap) acc.

(** The outer loop [for (const courseId in progressData)]; the guard
    [if (progressMap)] always passes, a [Map] being truthy. *)
Definition scanProgressData (progressData : list (string * Progress))
    (acc : Z * option string) : Z * option string :=
  fold_left (λ acc entry, scanProgressMap entry.1 entry.2 acc) progressData acc.

Definition lastActiveCourseId (progressData : list (string * Progress)) : option string :=
  if bool_decide (length (al_keys progressData) = 0%nat) then None
  else (scanProgressData progressData (0, None)).2.

(** ** The handlers *)

(** [geminiService.generateFunFacts(topic).then(setFunFacts).catch(...)]:
    the promise is not awaited; [facts] is [Some] outcome when it settles
    while the handler waits for its own generation call, [None] when it is
    still pending when the handler finishes. *)
Definition funFactsSettled (text : string) (facts : option (Outcome (list string))) : M unit :=
  match facts with
  | Some (Resolved fs) => setFunFacts fs
  | Some (Rejected e) => emit (ConsoleError text e)
  | None => skip
  end.

(** [handleGenerateCourse] up to its [await]. *)
Definition handleGenerateCourse_begin (topic : string) (level : KnowledgeLevel) : M unit :=
  setTopic topic;;
  emit (Invoke setViewGenerating);;
  setError None;;
  setFunFacts [];;
  emit (GeminiGenerateFunFacts topic);;
  emit (GeminiGenerateCourse topic level).

(** [handleGenerateCourse] after its [await]; [r] is the render whose
    [folders] the callback closed over. *)
Definition handleGenerateCourse_resume (r : AppState) (folderId : option string)
    (o : Outcome Course.t) : M unit :=
  match o with
  | Resolved generatedCourse =>
      emit (StorageSaveCourse generatedCourse);;
      match truthy folderId with
      | Some folderId =>
          let updatedFolders :=
            (λ f, if decide (Folder.id f = folderId)
                  then pushCourse (Course.id generatedCourse) f else f) <$> folders r in
          setFolders updatedFolders;;
          emit (StorageSaveFolders updatedFolders)
      | None => skip
      end;;
      setCourses_from (λ prev, generatedCourse :: prev);;
      setActiveCourse (Some generatedCourse);;
      emit (Invoke setViewCourse)
  | Rejected e =>
      emit (ConsoleError "" e);;
      let errorMessage := messageOr "An unknown error occurred." e in
      setError (Some ("Failed to generate the course. " +:+ errorMessage
                        +:+ ". Please try again."));;
      emit (Invoke setViewCanvas)
  end.

Definition handleGenerateCourse (topic : string) (level : KnowledgeLevel)
    (folderId : option string)
    (facts : option (Outcome (list string))) (o : Outcome Course.t) : M unit :=
  r ← render;
  handleGenerateCourse_begin topic level;;
  funFactsSettled "Failed to fetch fun facts for loading screen:" facts;;
  handleGenerateCourse_resume r folderId o.

Definition handleSelectCourse (courseId : string) : M unit :=
  r ← render;
  match js_find (λ c, Course.id c = courseId) (courses r) with
  | Some course => setActiveCourse (Some course)
  | None => skip
  end.

Definition handleDeleteCourse (courseId : string) : M unit :=
  r ← render;
  let remainingCourses := filter (λ c, Course.id c ≠ courseId) (courses r) in
  let updatedFolders := withoutCourse courseId <$> folders r in
  setCourses remainingCourses;;
  setFolders updatedFolders;;
  setProgressData_from (al_delete courseId);;
  emit (StorageDeleteCourse courseId);;
  deleteProgress courseId.

Definition handleToggleLessonComplete (now : Z) (courseId lessonId : string) : M unit :=
  newProgress ← toggleLessonProgress now courseId lessonId;
  setProgressData_from (al_set courseId newProgress).

Definition handleMoveCourseToFolder (courseId : string)
    (targetFolderId : option string) : M unit :=
  r ← render;
  let updatedFolders := withoutCourse courseId <$> folders r in
  let updatedFolders :=
    match truthy targetFolderId with
    | Some targetFolderId =>
        match js_findIndex (λ f, Folder.id f = targetFolderId) updatedFolders with
        | Some folderIndex => alter (pushCourse courseId) folderIndex updatedFolders
        | None => updatedFolders
        end
    | None => updatedFolders
    end in
  setFolders updatedFolders;;
  emit (StorageSaveFolders updatedFolders).

(** [handleGenerateLessonFlashcards]: the lesson lookup happens before the
    [await]; [o] is what the generation client answers when it is asked. *)
Definition handleGenerateLessonFlashcards (lessonId : string)
    (o : Outcome (list Flashcard)) : M unit :=
  r ← render;
  match activeCourse r with
  | None => skip
  | Some course =>
      setGeneratingLessonFlashcardId (Some lessonId);;
      match js_find (λ l, Lesson.id l = lessonId)
                    (concat (CourseModule.lessons <$> Course.modules course)) with
      | None =>
          emit (ConsoleError "Failed to generate lesson flashcards"
                             (ErrorObject "Lesson not found"))
      | Some lesson =>
          emit (GeminiGenerateLessonFlashcards lesson);;
          match o with
          | Resolved generatedCards =>
              let updatedCourse :=
                withModules (mapLesson lessonId (withFlashcards generatedCards)
                                       (Course.modules course)) course in
              emit (StorageUpdateCourse updatedCourse);;
              setActiveCourse (Some updatedCourse);;
              setCourses_from (replaceCourse updatedCourse)
          | Rejected e =>
              emit (ConsoleError "Failed to generate lesson flashcards" e)
          end
      end;;
      setGeneratingLessonFlashcardId None
  end.

Definition handleSaveNote (courseId lessonId note : string) : M unit :=
  r ← render;
  match js_find (λ c, Course.id c = courseId) (courses r) with
  | None => skip
  | Some courseToUpdate =>
      let updatedCourse :=
        withModules (mapLesson lessonId (withNotes note)
                               (Course.modules courseToUpdate)) courseToUpdate in
      emit (StorageUpdateCourse updatedCourse);;
      setCourses_from (replaceCourse updatedCourse);;
      if decide (Course.id <$> activeCourse r = Some courseId)
      then setActiveCourse (Some updatedCourse)
      else skip
  end.

Definition handleCloseSocraticModal : M unit :=
  setSocraticState (mkSocraticState false "" [] false).

Definition fallbackReply : string := "I'm having trouble thinking. Please try again.".

(** [handleSendSocraticMessage] up to its [await]; [socraticState] is the
    snapshot the caller passes in, [prev] the cell the setter updates. *)
Definition handleSendSocraticMessage_begin (message : string)
    (socraticState : SocraticState) : M unit :=
  let newHistory := history socraticState ++ [ChatMessage.mk user message] in
  setSocraticState_from
    (λ prev, mkSocraticState (isOpen prev) (originalText prev) newHistory true);;
  emit (GeminiContinueSocraticDialogue (originalText socraticState) newHistory).

(** [handleSendSocraticMessage] after its [await]. *)
Definition handleSendSocraticMessage_resume (message : string)
    (socraticState : SocraticState) (o : Outcome string) : M unit :=
  let newHistory := history socraticState ++ [ChatMessage.mk user message] in
  match o with
  | Resolved aiResponse =>
      setSocraticState_from
        (λ prev, mkSocraticState (isOpen prev) (originalText prev)
                   (newHistory ++ [ChatMessage.mk model aiResponse]) false)
  | Rejected e =>
      emit (ConsoleError "Failed to get Socratic response" e);;
      setSocraticState_from
        (λ prev, mkSocraticState (isOpen prev) (originalText prev)
                   (newHistory ++ [ChatMessage.mk model fallbackReply]) false)
  end.

Definition handleSendSocraticMessage (message : string)
    (socraticState : SocraticState) (o : Outcome string) : M unit :=
  handleSendSocraticMessage_begin message socraticState;;
  handleSendSocraticMessage_resume message socraticState o.

(** The call site in App.tsx:
    [onSendMessage={(message) => handleSendSocraticMessage(message, socraticState, setSocraticState)}]. *)
Definition onSendMessage (message : string) (o : Outcome string) : M unit :=
  λ w, handleSendSocraticMessage message (socratic w) o w.

Definition handleCreateProject_begin (projectTopic : string) : M unit :=
  setTopic projectTopic;;
  emit (Invoke setViewGenerating);;
  setError None;;
  setFunFacts [];;
  emit (GeminiGenerateFunFacts projectTopic);;
  emit (GeminiGenerateProjectScaffold projectTopic).

Definition handleCreateProject_resume (o : Outcome Project.t) : M unit :=
  match o with
  | Resolved generatedProject =>
      emit (StorageSaveProject generatedProject);;
      setProjects_from (λ prev, generatedProject :: prev);;
      setActiveProject (Some generatedProject);;
      emit (Invoke setViewProject)
  | Rejected e =>
      emit (ConsoleError "" e);;
      let errorMessage := messageOr "An unknown error occurred." e in
      setError (Some ("Failed to generate the project. " +:+ errorMessage
                        +:+ ". Please try again."));;
      emit (Invoke setViewProjects)
  end.

Definition handleCreateProject (projectTopic : string)
    (facts : option (Outcome (list string))) (o : Outcome Project.t) : M unit :=
  handleCreateProject_begin projectTopic;;
  funFactsSettled "Failed to fetch fun facts for project:" facts;;
  handleCreateProject_resume o.

Definition handleSelectProject (projectId : string) : M unit :=
  r ← render;
  match js_find (λ p, Project.id p = projectId) (projects r) with
  | Some project => setActiveProject (Some project)
  | None => skip
  end.

Definition handleTestCourseConcepts_begin (course : Course.t) : M unit :=
  emit (GeminiGenerateTestFromCourse course).

Definition handleTestCourseConcepts_resume (course : Course.t)
    (o : Outcome (list QuizData)) : M unit :=
  match o with
  | Resolved questions =>
      setPreloadedTest
        (Some (mkPreloadedTestState (Course.title course)
                                    (Course.knowledgeLevel course) questions));;
      emit (Invoke navigateToAssessment)
  | Rejected e =>
      emit (ConsoleError "Failed to generate test from course" e);;
      setError (Some (messageOr "Could not generate the test for this course." e))
  end.

Definition handleTestCourseConcepts (course : Course.t)
    (o : Outcome (list QuizData)) : M unit :=
  handleTestCourseConcepts_begin course;;
  handleTestCourseConcepts_resume course o.

(** ** The folder handlers *)

(** [handleCreateFolder]: the id is [`folder_${Date.now()}`]; [now] is the
    clock reading of the call, printed in decimal as a template literal
    prints an integral number. *)
Definition handleCreateFolder (now : Z) (name : string) : M unit :=
  r ← render;
  let newFolder := Folder.mk ("folder_" +:+ pretty now) name [] in
  let updatedFolders := folders r ++ [newFolder] in
  setFolders updatedFolders;;
  emit (StorageSaveFolders updatedFolders).

Definition handleDeleteFolder (folderId : string) : M unit :=
  r ← render;
  let updatedFolders := filter (λ f, Folder.id f ≠ folderId) (folders r) in
  setFolders updatedFolders;;
  emit (StorageSaveFolders updatedFolders).

Definition handleUpdateFolderName (folderId newName : string) : M unit :=
  r ← render;
  let updatedFolders :=
    (λ f, if decide (Folder.id f = folderId)
          then Folder.mk (Folder.id f) newName (Folder.courseIds f) else f)
      <$> folders r in
  setFolders updatedFolders;;
  emit (StorageSaveFolders updatedFolders).

(** ** The remaining provider operations *)

Definition clearPreloadedTest : M unit := setPreloadedTest None.

Definition closeExploreModal : M unit :=
  setExploreModalState (mkExploreModalState false false "" []).

(** [handleDeleteProject] and [handleExploreTopics] call three more
    operations of the collaborators; [Call] adds them to the events. *)
Inductive Call : Type :=
| Core (e : Event)
| StorageDeleteProject (projectId : string)
| StorageDeleteProjectProgress (projectId : string)
| GeminiGenerateRelatedTopics (course : Course.t).

Definition MX (A : Type) : Type := World → A * World * list Call.

#[global] Instance MX_ret : MRet MX := λ A a w, (a, w, []).

#[global] Instance MX_bind : MBind MX := λ A B k m w,
  let '(a, w1, t1) := m w in
  let '(b, w2, t2) := k a w1 in
  (b, w2, t1 ++ t2).

Definition lift {A} (m : M A) : MX A :=
  λ w, let '(a, w1, t1) := m w in (a, w1, Core <$> t1).
Definition call (c : Call) : MX unit := λ w, (tt, w, [c]).
Definition execX (m : MX unit) (w : World) : World := (m w).1.2.
Definition traceX (m : MX unit) (w : World) : list Call := (m w).2.

Definition handleDeleteProject (projectId : string) : MX unit :=
  r ← lift render;
  let remainingProjects := filter (λ p, Project.id p ≠ projectId) (projects r) in
  lift (setProjects remainingProjects);;
  call (StorageDeleteProject projectId);;
  call (StorageDeleteProjectProgress projectId);;
  lift (setProjectProgressData_from (al_delete projectId)).

(** [handleExploreTopics] up to its [await]. *)
Definition handleExploreTopics_begin (course : Course.t) : MX unit :=
  lift (setExploreModalState (mkExploreModalState true true (Course.title course) []));;
  call (GeminiGenerateRelatedTopics course).

(** [handleExploreTopics] after its [await]. *)
Definition handleExploreTopics_resume (o : Outcome (list RelatedTopic)) : MX unit :=
  match o with
  | Resolved topics =>
      lift (setExploreModalState_from
              (λ prev, mkExploreModalState (em_isOpen prev) false
                                           (em_courseTitle prev) topics))
  | Rejected e =>
      lift (emit (ConsoleError "Failed to generate related topics" e));;
      lift (setExploreModalState_from
              (λ prev, mkExploreModalState (em_isOpen prev) false
                                           (em_courseTitle prev) (em_topics prev)))
  end.

Definition handleExploreTopics (course : Course.t)
    (o : Outcome (list RelatedTopic)) : MX unit :=
  handleExploreTopics_begin course;;
  handleExploreTopics_resume o.

(** ** The shell: views and their transitions (App.tsx) *)

Module View.
Inductive t : Type :=
| generating | canvas | courseDetail | assessment | projects | projectDetail.
End View.

(** The arrow functions App.tsx passes for the callbacks: every call site
    gives [() => setView('courseDetail')] for [setViewCourse],
    [() => setView('generating')] for [setViewGenerating], and so on. *)
Definition viewOfCallback (cb : Callback) : View.t :=
  match cb with
  | setViewCourse => View.courseDetail
  | setViewGenerating => View.generating
  | setViewCanvas => View.canvas
  | setViewProject => View.projectDetail
  | setViewProjects => View.projects
  | navigateToAssessment => View.assessment
  end.

(** The view once the callbacks of a trace have run, in order. *)
Definition viewAfter (tr : list Event) (v : View.t) : View.t :=
  fold_left (λ v e, match e with Invoke cb => viewOfCallback cb | _ => v end) tr v.

(** The [useState] cell [view] of [App] beside the provider's world. *)
Record Shell : Type := mkShell {
  view : View.t;
  world : World
}.

(** Runs a provider handler from the shell; its callbacks set the view. *)
Definition dispatch (m : M unit) (a : Shell) : Shell :=
  mkShell (viewAfter (trace m (world a)) (view a)) (exec m (world a)).

(** What [renderContent] returns. *)
Inductive Screen : Type :=
| LoadingDisplay (topic : string) (funFacts : list string)
| CourseDetail (course : Course.t)
| AssessmentPage
| ProjectsPage
| ProjectDetail (project : Project.t)
| Dashboard
| Nothing.

(** [renderContent]: the screen, and the [setView] it issues while
    rendering when a detail view has nothing to show. *)
Definition renderContent (a : Shell) : Screen * option View.t :=
  let s := app (world a) in
  match view a with
  | View.generating => (LoadingDisplay (topic s) (funFacts s), None)
  | View.courseDetail =>
      match activeCourse s with
      | Some course => (CourseDetail course, None)
      | None => (Nothing, Some View.canvas)
      end
  | View.assessment => (AssessmentPage, None)
  | View.projects => (ProjectsPage, None)
  | View.projectDetail =>
      match activeProject s with
      | Some project => (ProjectDetail project, None)
      | None => (Nothing, Some View.projects)
      end
  | View.canvas => (Dashboard, None)
  end.

(** One render pass: the view after the [setView] of [renderContent]. *)
Definition rerender (a : Shell) : Shell :=
  match (renderContent a).2 with
  | Some v => mkShell v (world a)
  | None => a
  end.

Definition handleBackToCanvas (a : Shell) : Shell :=
  mkShell View.canvas (exec (setActiveCourse None) (world a)).

(** [onSelectCourse={(courseId) => { handleSelectCourse(courseId); setView('courseDetail'); }}]. *)
Definition onSelectCourse (courseId : string) (a : Shell) : Shell :=
  mkShell View.courseDetail (exec (handleSelectCourse courseId) (world a)).

(** [modules.flatMap(m => m.lessons)]. *)
Definition lessonsOf (c : Course.t) : list Lesson.t :=
  concat (CourseModule.lessons <$> Course.modules c).

(** ** Properties the specification speaks about *)

(** No folder membership list and no progress record references a course id
    that is absent from the course list. *)
Definition noDangling (s : AppState) : Prop :=
  (∀ f id, f ∈ folders s → id ∈ Folder.courseIds f → id ∈ Course.id <$> courses s)
  ∧ (∀ id, id ∈ al_keys (progressData s) → id ∈ Course.id <$> courses s).

(** A run of delete-course operations, one handler call per id. *)
Definition deleteCourses (courseIds : list string) (w : World) : World :=
  fold_left (λ w courseId, exec (handleDeleteCourse courseId) w) courseIds w.

(** [text] contains [part] as a substring. *)
Definition contains (text part : string) : Prop :=
  ∃ before after, text = before +:+ part +:+ after.

(** The folders, by position, whose membership list holds the course id. *)
Definition foldersHolding (courseId : string) (fs : list Folder.t) : list Folder.t :=
  filter (λ f, courseId ∈ Folder.courseIds f) fs.

(** The progress map of a course in a progress record ([progressData] or
    the stored records); a course without an entry has no completed lesson. *)
Definition progressOf (courseId : string) (records : list (string * Progress)) : Progress :=
  default [] (al_lookup courseId records).

(** *** The last active course, in the words of the specification *)

(** Every completion timestamp of every progress map, in iteration order. *)
Definition allTimestamps (progressData : list (string * Progress)) : list Z :=
  concat ((λ entry, al_values entry.2) <$> progressData).

(** The maximum timestamp across all progress maps; none when all maps are
    empty. *)
Definition maxTimestamp (progressData : list (string * Progress)) : option Z :=
  match allTimestamps progressData with
  | [] => None
  | t :: ts => Some (fold_left Z.max ts t)
  end.

(** "The course id holding the maximum timestamp across all progress maps,
    or null when all maps are empty; ties resolve to whichever is
    encountered first in iteration." *)
Definition spec_lastActiveCourseId (progressData : list (string * Progress)) : option string :=
  match maxTimestamp progressData with
  | None => None
  | Some latest => fst <$> js_find (λ entry, latest ∈ al_values entry.2) progressData
  end.

(** ** Sample data *)

Definition lessonL1 : Lesson.t := Lesson.mk "l1" "Light reactions" None None.
Definition lessonL2 : Lesson.t := Lesson.mk "l2" "Calvin cycle" None None.
Definition courseC1 : Course.t :=
  Course.mk "c1" "Photosynthesis" "beginner"
            [CourseModule.mk "Basics" [lessonL1; lessonL2]].
Definition courseC2 : Course.t :=
  Course.mk "c2" "Respiration" "beginner" [CourseModule.mk "Basics" []].
Definition folderA : Folder.t := Folder.mk "fA" "Biology" ["c1"; "c2"].
Definition folderB : Folder.t := Folder.mk "fB" "Later" [].
Definition projectP1 : Project.t := Project.mk "p1" "Herbarium" ["collect"; "press"].

Definition sampleApp : AppState :=
  mkAppState [courseC1; courseC2] [folderA; folderB] [projectP1]
             [("c1", [("l1", 5)])] [] None None "" None [] None None
             (mkExploreModalState false false "" []).

Definition sampleWorld : World :=
  mkWorld sampleApp (mkSocraticState true "Chlorophyll absorbs light." [] false)
          [("c1", [("l1", 5)])].

(** The sample world with progress in both courses. *)
Definition sampleWorldTwo : World :=
  mkWorld
    (mkAppState [courseC1; courseC2] [folderA; folderB] [projectP1]
                [("c1", [("l1", 5)]); ("c2", [("l3", 3)])] [] None None "" None [] None None
                (mkExploreModalState false false "" []))
    (socratic sampleWorld)
    [("c1", [("l1", 5)]); ("c2", [("l3", 3)])].

(** Unfolds one run of a handler down to the state it reads. *)
Ltac run_handler :=
  unfold exec, trace, mbind, M_bind, render; simpl.

(** Closes [x ∉ l] for a closed list [l] of strings. *)
Ltac not_in_list :=
  vm_compute; intros Hin;
  repeat (apply elem_of_cons in Hin as [Heq|Hin]; [discriminate Heq |]);
  by apply elem_of_nil in Hin.

(** ** Association-list facts *)

Section AssocListFacts.
Context {V : Type}.
Implicit Types (l : list (string * V)) (k : string).

Lemma al_lookup_None k l : al_lookup k l = None ↔ k ∉ al_keys l.
Proof.
  unfold al_keys. induction l as [|[k' v] l IH]; simpl.
  - split; [intros _; apply not_elem_of_nil | done].
  - rewrite not_elem_of_cons. case_decide as Hk.
    + split; [done | intros [Hne _]; congruence].
    + rewrite IH. split; [intros Hn; split; [congruence | done] | by intros [_ Hn]].
Qed.

Lemma al_has_false k l : al_has k l = false ↔ k ∉ al_keys l.
Proof.
  unfold al_has. rewrite bool_decide_eq_false, <- al_lookup_None.
  rewrite <- eq_None_not_Some. done.
Qed.

Lemma al_set_fresh k v l : k ∉ al_keys l → al_set k v l = l ++ [(k, v)].
Proof.
  unfold al_keys. induction l as [|[k' v'] l IH]; simpl; [done |].
  rewrite not_elem_of_cons. intros [Hne Hl].
  rewrite decide_False by congruence. by rewrite IH.
Qed.

Lemma al_lookup_set_eq k v l : al_lookup k (al_set k v l) = Some v.
Proof.
  induction l as [|[k' v'] l IH]; simpl.
  - by rewrite decide_True.
  - case_decide as Hk; simpl; [by rewrite decide_True |].
    by rewrite decide_False.
Qed.

Lemma al_delete_fresh k l : k ∉ al_keys l → al_delete k l = l.
Proof.
  unfold al_keys, al_delete. induction l as [|[k' v'] l IH]; simpl; [done |].
  rewrite not_elem_of_cons. intros [Hne Hl].
  rewrite filter_cons_True by (simpl; congruence). by rewrite IH.
Qed.

Lemma al_delete_snoc k v l : al_delete k (l ++ [(k, v)]) = al_delete k l.
Proof.
  unfold al_delete. rewrite filter_app, filter_cons_False by (simpl; auto).
  by rewrite filter_nil, app_nil_r.
Qed.

Lemma al_keys_delete k k' l : k' ∈ al_keys (al_delete k l) ↔ k' ≠ k ∧ k' ∈ al_keys l.
Proof.
  unfold al_keys, al_delete. rewrite !list_elem_of_fmap. split.
  - intros [[a v] [-> Hin]]. apply list_elem_of_filter in Hin as [Hne Hin].
    split; [done | by exists (a, v)].
  - intros [Hne [[a v] [-> Hin]]]. exists (a, v). split; [done |].
    by apply list_elem_of_filter.
Qed.

Lemma al_lookup_delete_eq k l : al_lookup k (al_delete k l) = None.
Proof. apply al_lookup_None. rewrite al_keys_delete. by intros [? _]. Qed.
End AssocListFacts.

(** ** Deleting a course *)

Lemma handleDeleteCourse_courses courseId w :
  courses (app (exec (handleDeleteCourse courseId) w))
  = filter (λ c, Course.id c ≠ courseId) (courses (app w)).
Proof. reflexivity. Qed.

Lemma handleDeleteCourse_folders courseId w :
  folders (app (exec (handleDeleteCourse courseId) w))
  = withoutCourse courseId <$> folders (app w).
Proof. reflexivity. Qed.

Lemma handleDeleteCourse_progressData courseId w :
  progressData (app (exec (handleDeleteCourse courseId) w))
  = al_delete courseId (progressData (app w)).
Proof. reflexivity. Qed.

Lemma elem_of_withoutCourse courseId (fs : list Folder.t) f id :
  f ∈ withoutCourse courseId <$> fs → id ∈ Folder.courseIds f →
  id ≠ courseId ∧ ∃ f0, f0 ∈ fs ∧ id ∈ Folder.courseIds f0.
Proof.
  intros [f0 [-> Hf0]]%list_elem_of_fmap Hid. simpl in Hid.
  apply list_elem_of_filter in Hid as [Hne Hid]. eauto.
Qed.

Lemma remaining_course_ids courseId (cs : list Course.t) id :
  id ≠ courseId → id ∈ Course.id <$> cs →
  id ∈ Course.id <$> filter (λ c, Course.id c ≠ courseId) cs.
Proof.
  intros Hne [c [-> Hc]]%list_elem_of_fmap. apply list_elem_of_fmap.
  exists c. split; [done |]. by apply list_elem_of_filter.
Qed.

Lemma handleDeleteCourse_preserves courseId w :
  noDangling (app w) → noDangling (app (exec (handleDeleteCourse courseId) w)).
Proof.
  intros [Hf Hp]. split.
  - intros f id. rewrite handleDeleteCourse_folders, handleDeleteCourse_courses.
    intros Hin Hid.
    destruct (elem_of_withoutCourse _ _ _ _ Hin Hid) as [Hne [f0 [Hf0 Hid0]]].
    apply remaining_course_ids; eauto.
  - intros id. rewrite handleDeleteCourse_progressData, handleDeleteCourse_courses.
    intros [Hne Hin]%al_keys_delete. apply remaining_course_ids; auto.
Qed.

Lemma deleteCourses_preserves courseIds w :
  noDangling (app w) → noDangling (app (deleteCourses courseIds w)).
Proof.
  revert w. induction courseIds as [|c cs IH]; intros w Hw; simpl; [done |].
  apply IH. by apply handleDeleteCourse_preserves.
Qed.

(** C1: along every run of delete-course operations started in a state
    without dangling references, the state after each [handleDeleteCourse]
    has no dangling reference either: no folder lists the deleted id, the
    progress data has no entry for it, and the course list no longer holds
    a course with that id. *)
Theorem handleDeleteCourse_no_dangling (w : World) (earlier : list string)
    (courseId : string) :
  noDangling (app w) →
  let w' := exec (handleDeleteCourse courseId) (deleteCourses earlier w) in
  noDangling (app w')
  ∧ (∀ f, f ∈ folders (app w') → courseId ∉ Folder.courseIds f)
  ∧ al_lookup courseId (progressData (app w')) = None
  ∧ courseId ∉ Course.id <$> courses (app w').
Proof.
  intros Hw w'. subst w'. repeat split.
  - apply handleDeleteCourse_preserves, deleteCourses_preserves, Hw.
  - apply handleDeleteCourse_preserves, deleteCourses_preserves, Hw.
  - intros f Hin Hid. rewrite handleDeleteCourse_folders in Hin.
    by destruct (elem_of_withoutCourse _ _ _ _ Hin Hid) as [Hne _].
  - rewrite handleDeleteCourse_progressData. apply al_lookup_delete_eq.
  - rewrite handleDeleteCourse_courses.
    intros [c [Hc Hin]]%list_elem_of_fmap.
    apply list_elem_of_filter in Hin as [Hne _]. done.
Qed.

Lemma sampleWorld_noDangling : noDangling (app sampleWorld).
Proof.
  split.
  - intros f id Hf Hid. simpl in Hf.
    apply elem_of_cons in Hf as [->|Hf]; [exact Hid |].
    apply elem_of_cons in Hf as [->|Hf]; [by apply elem_of_nil in Hid |].
    by apply elem_of_nil in Hf.
  - intros id Hid. simpl in Hid.
    apply elem_of_cons in Hid as [->|Hid]; [by left |].
    by apply elem_of_nil in Hid.
Qed.

Lemma handleDeleteCourse_no_dangling_witness :
  let w' := exec (handleDeleteCourse "c1") (deleteCourses ["c2"] sampleWorld) in
  noDangling (app w')
  ∧ (∀ f, f ∈ folders (app w') → "c1" ∉ Folder.courseIds f)
  ∧ al_lookup "c1" (progressData (app w')) = None
  ∧ "c1" ∉ Course.id <$> courses (app w').
Proof.
  exact (handleDeleteCourse_no_dangling sampleWorld ["c2"] "c1" sampleWorld_noDangling).
Defined.

(** ** Generating a course *)

Lemma contains_middle (before part after : string) :
  contains (before +:+ part +:+ after) part.
Proof. by exists before, after. Qed.

(** C2: with a null folder id and a generation client that succeeds,
    [handleGenerateCourse] puts the generated course at the head of the
    course list, hands it to [storageService.saveCourse], makes it the
    active course, leaves the error at null and invokes the show-course
    callback exactly once. *)
Theorem handleGenerateCourse_success (topic : string) (level : KnowledgeLevel)
    (facts : option (Outcome (list string))) (generatedCourse : Course.t) (w : World) :
  let m := handleGenerateCourse topic level None facts (Resolved generatedCourse) in
  courses (app (exec m w)) = generatedCourse :: courses (app w)
  ∧ StorageSaveCourse generatedCourse ∈ trace m w
  ∧ activeCourse (app (exec m w)) = Some generatedCourse
  ∧ error (app (exec m w)) = None
  ∧ invocations setViewCourse (trace m w) = 1%nat.
Proof.
  destruct facts as [[fs|e]|]; cbn; repeat split; set_solver.
Qed.

(** C3: when the generation client fails, [handleGenerateCourse] sets the
    error to a non-empty string: for a failure that is an [Error] it is the
    formatted text around the message of that failure, which it therefore
    contains; for any other thrown value the fixed text stands in for the
    message.  The active course and the course list are left as they were
    and the show-canvas callback is invoked exactly once. *)
Theorem handleGenerateCourse_failure (topic : string) (level : KnowledgeLevel)
    (folderId : option string) (facts : option (Outcome (list string)))
    (e : Thrown) (w : World) :
  let m := handleGenerateCourse topic level folderId facts (Rejected e) in
  (∃ text, error (app (exec m w)) = Some text
           ∧ text ≠ ""
           ∧ match e with
             | ErrorObject msg =>
                 contains text msg
                 ∧ text = "Failed to generate the course. " +:+ msg +:+ ". Please try again."
             | OtherValue =>
                 text = "Failed to generate the course. An unknown error occurred.. Please try again."
             end)
  ∧ activeCourse (app (exec m w)) = activeCourse (app w)
  ∧ courses (app (exec m w)) = courses (app w)
  ∧ invocations setViewCanvas (trace m w) = 1%nat
  ∧ invocations setViewCourse (trace m w) = 0%nat.
Proof.
  destruct e as [msg|]; destruct facts as [[fs|e']|]; cbn;
    (split; [eexists; split; [reflexivity | split; [done |]] |]);
    repeat split;
    try apply (contains_middle "Failed to generate the course. " msg ". Please try again.").
Qed.

(** ** The shared error string *)

Lemma handleGenerateCourse_begin_clears_error topic level w :
  error (app (exec (handleGenerateCourse_begin topic level) w)) = None.
Proof. reflexivity. Qed.

Lemma handleCreateProject_begin_clears_error projectTopic w :
  error (app (exec (handleCreateProject_begin projectTopic) w)) = None.
Proof. reflexivity. Qed.

Lemma handleTestCourseConcepts_keeps_error course questions w :
  error (app (exec (handleTestCourseConcepts_begin course) w)) = error (app w)
  ∧ error (app (exec (handleTestCourseConcepts course (Resolved questions)) w))
    = error (app w).
Proof. split; reflexivity. Qed.

(** C8: after a failed course generation has left its message in the shared
    error string, a test-from-course attempt does not clear it: the message
    is still there when the attempt starts and still there after the
    attempt has succeeded, whereas the course and project attempts start by
    setting the error to null. *)
Theorem handleTestCourseConcepts_stale_error :
  let failed :=
    exec (handleGenerateCourse "Photosynthesis" "beginner" None None
                               (Rejected (ErrorObject "quota exceeded"))) sampleWorld in
  let stale := Some "Failed to generate the course. quota exceeded. Please try again." in
  error (app failed) = stale
  ∧ error (app (exec (handleTestCourseConcepts_begin courseC1) failed)) = stale
  ∧ error (app (exec (handleTestCourseConcepts courseC1 (Resolved ["q1"])) failed)) = stale
  ∧ error (app (exec (handleGenerateCourse_begin "Photosynthesis" "beginner") failed)) = None
  ∧ error (app (exec (handleCreateProject_begin "Herbarium") failed)) = None.
Proof. repeat split. Qed.

(** ** Flashcards without an active course *)

(** C10: when no course is active, [handleGenerateLessonFlashcards] returns
    at once: the whole state, the generating-lesson marker included, is what
    it was, and neither the generation client nor the storage service (nor
    anything else) is called. *)
Theorem handleGenerateLessonFlashcards_no_active_course (lessonId : string)
    (o : Outcome (list Flashcard)) (w : World) :
  activeCourse (app w) = None →
  exec (handleGenerateLessonFlashcards lessonId o) w = w
  ∧ trace (handleGenerateLessonFlashcards lessonId o) w = []
  ∧ generatingLessonFlashcardId (app (exec (handleGenerateLessonFlashcards lessonId o) w))
    = generatingLessonFlashcardId (app w).
Proof.
  destruct w as [s so sp]. destruct s. simpl. intros ->. repeat split.
Qed.

Lemma handleGenerateLessonFlashcards_no_active_course_witness :
  exec (handleGenerateLessonFlashcards "l1" (Resolved ["card"])) sampleWorld = sampleWorld
  ∧ trace (handleGenerateLessonFlashcards "l1" (Resolved ["card"])) sampleWorld = []
  ∧ generatingLessonFlashcardId
      (app (exec (handleGenerateLessonFlashcards "l1" (Resolved ["card"])) sampleWorld))
    = generatingLessonFlashcardId (app sampleWorld).
Proof.
  apply (handleGenerateLessonFlashcards_no_active_course "l1" (Resolved ["card"]) sampleWorld).
  reflexivity.
Defined.

(** ** Socratic dialogue *)

Lemma onSendMessage_socratic message (o : Outcome string) w :
  socratic (exec (onSendMessage message o) w)
  = mkSocraticState (isOpen (socratic w)) (originalText (socratic w))
      ((history (socratic w) ++ [ChatMessage.mk user message])
         ++ [ChatMessage.mk model
               match o with Resolved aiResponse => aiResponse | Rejected _ => fallbackReply end])
      false.
Proof. destruct o; reflexivity. Qed.

(** C7, as the handler has it: [handleSendSocraticMessage] builds the new
    history from the session state it is passed, not from the session's
    current history.  Before the generation client is awaited the history
    becomes the passed history plus exactly one user turn and loading is
    set; a response makes it the passed history plus the user turn and
    exactly one model turn and clears loading; a failure puts the fixed
    fallback turn in place of the model turn and clears loading as well.
    No turn of the passed state is removed.  Called as App.tsx calls it,
    with the current state and nothing else running before the reply, the
    session's history grows by the two turns. *)
Theorem handleSendSocraticMessage_from_snapshot (message : string) (o : Outcome string)
    (socraticState : SocraticState) (cur mid : World) :
  let userTurn := ChatMessage.mk user message in
  let modelTurn :=
    ChatMessage.mk model match o with
                         | Resolved aiResponse => aiResponse
                         | Rejected _ => fallbackReply
                         end in
  let waiting := exec (handleSendSocraticMessage_begin message socraticState) cur in
  let settled := exec (handleSendSocraticMessage_resume message socraticState o) mid in
  socratic waiting
  = mkSocraticState (isOpen (socratic cur)) (originalText (socratic cur))
                    (history socraticState ++ [userTurn]) true
  ∧ trace (handleSendSocraticMessage_begin message socraticState) cur
    = [GeminiContinueSocraticDialogue (originalText socraticState)
                                      (history socraticState ++ [userTurn])]
  ∧ socratic settled
    = mkSocraticState (isOpen (socratic mid)) (originalText (socratic mid))
                      (history socraticState ++ [userTurn; modelTurn]) false
  ∧ exec (onSendMessage message o) cur
    = exec (handleSendSocraticMessage_resume message (socratic cur) o)
           (exec (handleSendSocraticMessage_begin message (socratic cur)) cur)
  ∧ history (socratic (exec (onSendMessage message o) cur))
    = history (socratic cur) ++ [userTurn; modelTurn]
  ∧ isLoading (socratic (exec (onSendMessage message o) cur)) = false.
Proof.
  pose proof (onSendMessage_socratic message o cur) as Hsent.
  cbv zeta. rewrite Hsent. simpl.
  destruct o as [aiResponse|e]; simpl;
    repeat split; rewrite <- ?app_assoc; reflexivity.
Qed.

(** C7 as "no prior turn is ever removed" fails when two sends overlap: a
    second message sent before the first reply is in the history, and the
    first reply, rebuilding the history from its own snapshot, drops it. *)
Lemma handleSendSocraticMessage_overlap_loses_turn :
  let w1 := exec (handleSendSocraticMessage_begin "Why?" (socratic sampleWorld)) sampleWorld in
  let w2 := exec (handleSendSocraticMessage_begin "How?" (socratic w1)) w1 in
  let w3 := exec (handleSendSocraticMessage_resume "Why?" (socratic sampleWorld)
                                                   (Resolved "Because.")) w2 in
  history (socratic w2) = [ChatMessage.mk user "Why?"; ChatMessage.mk user "How?"]
  ∧ history (socratic w3) = [ChatMessage.mk user "Why?"; ChatMessage.mk model "Because."]
  ∧ (ChatMessage.mk user "How?" ∈ history (socratic w2))
  ∧ (ChatMessage.mk user "How?" ∉ history (socratic w3)).
Proof.
  split; [reflexivity | split; [reflexivity | split]].
  - right. left.
  - not_in_list.
Qed.

(** ** Lookups that find nothing *)

Lemma js_find_absent {A} (P : A → Prop) `{∀ x, Decision (P x)} (xs : list A) :
  (∀ x, x ∈ xs → ¬ P x) → js_find P xs = None.
Proof.
  intros Hno. unfold js_find.
  destruct (list_find P xs) as [[i x]|] eqn:Hf; [| done].
  apply list_find_Some in Hf as (Hi & HP & _).
  exfalso. eapply Hno; [| exact HP]. eapply list_elem_of_lookup_2, Hi.
Qed.

Lemma js_find_no_id {A} (key : A → string) (k : string) (xs : list A) :
  k ∉ key <$> xs → js_find (λ x, key x = k) xs = None.
Proof.
  intros Hk. apply js_find_absent. intros x Hx <-.
  apply Hk, list_elem_of_fmap. eauto.
Qed.

(** Stripping a course id from the membership lists leaves the folder ids,
    hence the outcome of [findIndex] by id, as they were. *)
Lemma js_findIndex_withoutCourse courseId targetFolderId (fs : list Folder.t) :
  js_findIndex (λ f, Folder.id f = targetFolderId) (withoutCourse courseId <$> fs)
  = js_findIndex (λ f, Folder.id f = targetFolderId) fs.
Proof.
  unfold js_findIndex. rewrite list_find_fmap.
  change (list_find (_ ∘ withoutCourse courseId) fs)
    with (list_find (λ f, Folder.id f = targetFolderId) fs).
  by destruct (list_find _ fs) as [[j y]|].
Qed.

Lemma js_findIndex_no_id targetFolderId (fs : list Folder.t) :
  targetFolderId ∉ Folder.id <$> fs →
  js_findIndex (λ f, Folder.id f = targetFolderId) fs = None.
Proof.
  intros Hk. unfold js_findIndex.
  pose proof (js_find_no_id Folder.id targetFolderId fs Hk) as Hf.
  unfold js_find in Hf. by destruct (list_find _ fs).
Qed.

Lemma handleMoveCourseToFolder_folders courseId targetFolderId w :
  folders (app (exec (handleMoveCourseToFolder courseId targetFolderId) w))
  = match truthy targetFolderId with
    | Some t =>
        match js_findIndex (λ f, Folder.id f = t) (folders (app w)) with
        | Some folderIndex =>
            alter (pushCourse courseId) folderIndex
                  (withoutCourse courseId <$> folders (app w))
        | None => withoutCourse courseId <$> folders (app w)
        end
    | None => withoutCourse courseId <$> folders (app w)
    end.
Proof.
  run_handler. destruct (truthy targetFolderId) as [t|]; [| done].
  by rewrite js_findIndex_withoutCourse.
Qed.

(** C9, as the handlers have it: selecting a course, selecting a project and
    saving a note do nothing at all when the id they look up is not found
    (state unchanged, nothing called, no error).  Moving a course to a
    folder whose id is not found raises no error either, but it is not a
    no-op: it does what a move to no folder does, stripping the course id
    from every membership list and saving the folders. *)
Theorem lookup_failure_behaviour (courseId projectId lessonId note : string)
    (movedId targetFolderId : string) (w : World) :
  courseId ∉ Course.id <$> courses (app w) →
  projectId ∉ Project.id <$> projects (app w) →
  targetFolderId ∉ Folder.id <$> folders (app w) →
  (exec (handleSelectCourse courseId) w = w
   ∧ trace (handleSelectCourse courseId) w = [])
  ∧ (exec (handleSelectProject projectId) w = w
     ∧ trace (handleSelectProject projectId) w = [])
  ∧ (exec (handleSaveNote courseId lessonId note) w = w
     ∧ trace (handleSaveNote courseId lessonId note) w = [])
  ∧ (let move := handleMoveCourseToFolder movedId (Some targetFolderId) in
     folders (app (exec move w)) = withoutCourse movedId <$> folders (app w)
     ∧ exec move w = exec (handleMoveCourseToFolder movedId None) w
     ∧ trace move w = [StorageSaveFolders (withoutCourse movedId <$> folders (app w))]
     ∧ error (app (exec move w)) = error (app w)).
Proof.
  intros Hc Hp Hf.
  apply (js_find_no_id Course.id) in Hc.
  apply (js_find_no_id Project.id) in Hp.
  apply js_findIndex_no_id in Hf.
  repeat split.
  - unfold handleSelectCourse. run_handler. by rewrite Hc.
  - unfold handleSelectCourse. run_handler. by rewrite Hc.
  - unfold handleSelectProject. run_handler. by rewrite Hp.
  - unfold handleSelectProject. run_handler. by rewrite Hp.
  - unfold handleSaveNote. run_handler. by rewrite Hc.
  - unfold handleSaveNote. run_handler. by rewrite Hc.
  - rewrite handleMoveCourseToFolder_folders. simpl.
    case_decide; [done |]. by rewrite Hf.
  - unfold handleMoveCourseToFolder. run_handler.
    case_decide; [done |]. by rewrite js_findIndex_withoutCourse, Hf.
  - unfold handleMoveCourseToFolder. run_handler.
    case_decide; [done |]. by rewrite js_findIndex_withoutCourse, Hf.
Qed.

Lemma lookup_failure_behaviour_witness :
  (exec (handleSelectCourse "c9") sampleWorld = sampleWorld
   ∧ trace (handleSelectCourse "c9") sampleWorld = [])
  ∧ (exec (handleSelectProject "p9") sampleWorld = sampleWorld
     ∧ trace (handleSelectProject "p9") sampleWorld = [])
  ∧ (exec (handleSaveNote "c9" "l1" "remember") sampleWorld = sampleWorld
     ∧ trace (handleSaveNote "c9" "l1" "remember") sampleWorld = [])
  ∧ (let move := handleMoveCourseToFolder "c1" (Some "fZ") in
     folders (app (exec move sampleWorld))
     = withoutCourse "c1" <$> folders (app sampleWorld)
     ∧ exec move sampleWorld = exec (handleMoveCourseToFolder "c1" None) sampleWorld
     ∧ trace move sampleWorld
       = [StorageSaveFolders (withoutCourse "c1" <$> folders (app sampleWorld))]
     ∧ error (app (exec move sampleWorld)) = error (app sampleWorld)).
Proof.
  apply (lookup_failure_behaviour "c9" "p9" "l1" "remember" "c1" "fZ" sampleWorld);
    simpl; intros Hin;
    repeat (apply elem_of_cons in Hin as [Heq|Hin]; [discriminate Heq |]);
    by apply elem_of_nil in Hin.
Defined.

(** C9 as a blanket no-op fails for the move: asking to move course c1 to a
    folder id that no folder has takes c1 out of folder fA, so the folders
    are not what they were. *)
Lemma handleMoveCourseToFolder_unknown_target_changes_state :
  ("fZ" ∉ Folder.id <$> folders (app sampleWorld))
  ∧ folders (app sampleWorld) = [Folder.mk "fA" "Biology" ["c1"; "c2"]; folderB]
  ∧ folders (app (exec (handleMoveCourseToFolder "c1" (Some "fZ")) sampleWorld))
    = [Folder.mk "fA" "Biology" ["c2"]; folderB]
  ∧ exec (handleMoveCourseToFolder "c1" (Some "fZ")) sampleWorld ≠ sampleWorld.
Proof.
  split; [| split; [reflexivity | split; [reflexivity | discriminate]]].
  simpl; intros Hin;
    repeat (apply elem_of_cons in Hin as [Heq|Hin]; [discriminate Heq |]);
    by apply elem_of_nil in Hin.
Qed.

(** ** Moving a course between folders *)

Lemma foldersHolding_withoutCourse courseId (fs : list Folder.t) :
  foldersHolding courseId (withoutCourse courseId <$> fs) = [].
Proof.
  unfold foldersHolding. induction fs as [|f fs IH]; simpl; [done |].
  rewrite filter_cons_False; [exact IH |].
  simpl. intros [Hne _]%list_elem_of_filter. done.
Qed.

Lemma withoutCourse_not_holding courseId (fs : list Folder.t) i f :
  (withoutCourse courseId <$> fs) !! i = Some f → courseId ∉ Folder.courseIds f.
Proof.
  rewrite list_lookup_fmap. destruct (fs !! i) as [f0|]; simpl; [| done].
  intros [= <-]. simpl. intros [Hne _]%list_elem_of_filter. done.
Qed.

Lemma foldersHolding_alter courseId (g : Folder.t → Folder.t) i (fs : list Folder.t) :
  foldersHolding courseId fs = [] →
  (length (foldersHolding courseId (alter g i fs)) ≤ 1)%nat.
Proof.
  unfold foldersHolding. revert i. induction fs as [|f fs IH]; intros i Hnone.
  - destruct i; simpl; lia.
  - destruct (decide (courseId ∈ Folder.courseIds f)) as [Hin|Hout].
    + rewrite filter_cons_True in Hnone by done. discriminate.
    + rewrite filter_cons_False in Hnone by done. destruct i as [|i]; simpl.
      * destruct (decide (courseId ∈ Folder.courseIds (g f))).
        -- rewrite filter_cons_True by done. simpl. rewrite Hnone. simpl. lia.
        -- rewrite filter_cons_False by done. rewrite Hnone. simpl. lia.
      * rewrite filter_cons_False by done. by apply IH.
Qed.

Lemma js_findIndex_Some {A} (P : A → Prop) `{∀ x, Decision (P x)} (xs : list A) i :
  js_findIndex P xs = Some i → ∃ x, xs !! i = Some x ∧ P x.
Proof.
  unfold js_findIndex. destruct (list_find P xs) as [[j x]|] eqn:Hf; [| done].
  simpl. intros [= ->]. apply list_find_Some in Hf as (Hi & HP & _). eauto.
Qed.

Lemma moved_only_in_target courseId t k (fs : list Folder.t) i f :
  js_findIndex (λ g, Folder.id g = t) fs = Some k →
  alter (pushCourse courseId) k (withoutCourse courseId <$> fs) !! i = Some f →
  courseId ∈ Folder.courseIds f →
  Folder.id f = t ∧ i = k.
Proof.
  intros Hk Hi Hin. destruct (decide (i = k)) as [->|Hne].
  - apply js_findIndex_Some in Hk as (g & Hg & Hid).
    rewrite list_lookup_alter_eq, list_lookup_fmap, Hg in Hi. simpl in Hi.
    injection Hi as <-. by split.
  - rewrite list_lookup_alter_ne in Hi by (intros ->; done).
    by apply withoutCourse_not_holding in Hi.
Qed.

Lemma moved_others_stripped courseId t k (fs : list Folder.t) i f0 :
  js_findIndex (λ g, Folder.id g = t) fs = Some k →
  fs !! i = Some f0 → Folder.id f0 ≠ t →
  alter (pushCourse courseId) k (withoutCourse courseId <$> fs) !! i
  = Some (withoutCourse courseId f0).
Proof.
  intros Hk Hf0 Hne. destruct (decide (i = k)) as [->|Hik].
  - apply js_findIndex_Some in Hk as (g & Hg & Hid).
    rewrite Hf0 in Hg. injection Hg as <-. done.
  - rewrite list_lookup_alter_ne by (intros ->; done).
    by rewrite list_lookup_fmap, Hf0.
Qed.

(** C4: after [handleMoveCourseToFolder] the course id is in at most one
    membership list.  A folder that holds it afterwards is the target: its
    id is the target id and it sits where [findIndex] found that id.  Every
    folder whose id is not the target id has lost the course id and kept
    the rest, and a move with a null target leaves the id in no folder. *)
Theorem handleMoveCourseToFolder_at_most_one (courseId : string)
    (targetFolderId : option string) (w : World) :
  let before := folders (app w) in
  let after := folders (app (exec (handleMoveCourseToFolder courseId targetFolderId) w)) in
  (length (foldersHolding courseId after) ≤ 1)%nat
  ∧ (∀ i f, after !! i = Some f → courseId ∈ Folder.courseIds f →
       truthy targetFolderId = Some (Folder.id f)
       ∧ js_findIndex (λ g, Folder.id g = Folder.id f) before = Some i)
  ∧ (∀ i f0, before !! i = Some f0 → truthy targetFolderId ≠ Some (Folder.id f0) →
       after !! i = Some (withoutCourse courseId f0))
  ∧ foldersHolding courseId
      (folders (app (exec (handleMoveCourseToFolder courseId None) w))) = [].
Proof.
  cbv zeta. rewrite !handleMoveCourseToFolder_folders. simpl.
  destruct (truthy targetFolderId) as [t|] eqn:Ht;
    [destruct (js_findIndex _ (folders (app w))) as [k|] eqn:Hk |].
  - split; [apply foldersHolding_alter, foldersHolding_withoutCourse |].
    split; [| split; [| apply foldersHolding_withoutCourse]].
    + intros i f Hi Hin.
      destruct (moved_only_in_target _ _ _ _ _ _ Hk Hi Hin) as [<- ->]. by split.
    + intros i f0 Hf0 Hne. eapply moved_others_stripped; [exact Hk | exact Hf0 |].
      congruence.
  - rewrite foldersHolding_withoutCourse. split; [simpl; lia |].
    split; [| split; [| done]].
    + intros i f Hi Hin. by apply withoutCourse_not_holding in Hi.
    + intros i f0 Hf0 _. by rewrite list_lookup_fmap, Hf0.
  - rewrite foldersHolding_withoutCourse. split; [simpl; lia |].
    split; [| split; [| done]].
    + intros i f Hi Hin. by apply withoutCourse_not_holding in Hi.
    + intros i f0 Hf0 _. by rewrite list_lookup_fmap, Hf0.
Qed.

(** ** The last active course *)

Lemma fold_max_ge (ts : list Z) (lo : Z) : lo ≤ fold_left Z.max ts lo.
Proof.
  revert lo. induction ts as [|t ts IH]; intros lo; simpl; [lia |].
  specialize (IH (Z.max lo t)). lia.
Qed.

Lemma fold_max_upper (ts : list Z) (lo t : Z) :
  t ∈ ts → t ≤ fold_left Z.max ts lo.
Proof.
  revert lo. induction ts as [|u ts IH]; intros lo Hin; simpl.
  - by apply elem_of_nil in Hin.
  - apply elem_of_cons in Hin as [->|Hin]; [| by apply IH].
    pose proof (fold_max_ge ts (Z.max lo u)). lia.
Qed.

Lemma fold_max_attained (ts : list Z) (lo : Z) :
  lo < fold_left Z.max ts lo → fold_left Z.max ts lo ∈ ts.
Proof.
  revert lo. induction ts as [|u ts IH]; intros lo Hlt; simpl in *; [lia |].
  destruct (decide (Z.max lo u < fold_left Z.max ts (Z.max lo u))) as [Hgt|Hle].
  - right. by apply IH.
  - pose proof (fold_max_ge ts (Z.max lo u)).
    assert (fold_left Z.max ts (Z.max lo u) = u) as -> by lia. by left.
Qed.

Lemma fold_max_max (ts : list Z) (a b : Z) :
  fold_left Z.max ts (Z.max a b) = Z.max a (fold_left Z.max ts b).
Proof.
  revert b. induction ts as [|u ts IH]; intros b; simpl; [done |].
  by rewrite <- Z.max_assoc, IH.
Qed.

(** The inner loop leaves the running maximum in [lastTimestamp] and names
    the course exactly when the maximum went up. *)
Lemma scanProgressMap_spec courseId (progressMap : Progress) lastTimestamp lastCourseId :
  scanProgressMap courseId progressMap (lastTimestamp, lastCourseId)
  = (fold_left Z.max (al_values progressMap) lastTimestamp,
     if bool_decide (lastTimestamp < fold_left Z.max (al_values progressMap) lastTimestamp)
     then Some courseId else lastCourseId).
Proof.
  unfold scanProgressMap.
  generalize (al_values progressMap) as ts. intros ts.
  revert lastTimestamp lastCourseId.
  induction ts as [|t ts IH]; intros lo lc; simpl.
  - rewrite bool_decide_eq_false_2 by lia. done.
  - pose proof (fold_max_ge ts (Z.max lo t)) as Hge.
    case_bool_decide as Ht.
    + rewrite IH. replace (Z.max lo t) with t by lia.
      replace (Z.max lo t) with t in Hge by lia.
      rewrite (bool_decide_eq_true_2 (lo < _)) by lia.
      by destruct (bool_decide _).
    + rewrite IH. replace (Z.max lo t) with lo by lia. done.
Qed.

Lemma scanProgressData_spec (progressData : list (string * Progress))
    lastTimestamp lastCourseId :
  scanProgressData progressData (lastTimestamp, lastCourseId)
  = let latest := fold_left Z.max (allTimestamps progressData) lastTimestamp in
    (latest,
     if bool_decide (lastTimestamp < latest)
     then fst <$> js_find (λ entry, latest ∈ al_values entry.2) progressData
     else lastCourseId).
Proof.
  unfold scanProgressData, allTimestamps. cbv zeta.
  revert lastTimestamp lastCourseId.
  induction progressData as [|[courseId progressMap] rest IH]; intros lo lc; simpl.
  - rewrite bool_decide_eq_false_2 by lia. done.
  - rewrite scanProgressMap_spec, IH, fold_left_app.
    set (m1 := fold_left Z.max (al_values progressMap) lo).
    set (ts := concat _).
    set (latest := fold_left Z.max ts m1).
    pose proof (fold_max_ge (al_values progressMap) lo) as Hm1. fold m1 in Hm1.
    pose proof (fold_max_ge ts m1) as Hlatest. fold latest in Hlatest.
    f_equal. unfold js_find. simpl.
    destruct (decide (m1 < latest)) as [Hup|Hsame].
    + rewrite (bool_decide_eq_true_2 (m1 < latest)) by done.
      rewrite (bool_decide_eq_true_2 (lo < latest)) by lia.
      rewrite decide_False.
      * match goal with
        | |- context [list_find ?P rest] => by destruct (list_find P rest) as [[i e]|]
        end.
      * intros Hin. pose proof (fold_max_upper _ lo _ Hin) as Hle.
        fold m1 in Hle. lia.
    + rewrite (bool_decide_eq_false_2 (m1 < latest)) by done.
      assert (latest = m1) as Heq by lia. rewrite Heq.
      case_bool_decide as Hlo; [| done].
      rewrite decide_True; [done |].
      by apply fold_max_attained.
Qed.

Lemma maxTimestamp_is_max (progressData : list (string * Progress)) latest :
  maxTimestamp progressData = Some latest →
  latest ∈ allTimestamps progressData
  ∧ ∀ t, t ∈ allTimestamps progressData → t ≤ latest.
Proof.
  unfold maxTimestamp. destruct (allTimestamps progressData) as [|t ts]; [done |].
  intros [= <-]. split.
  - destruct (decide (t < fold_left Z.max ts t)) as [Hlt|Hge].
    + right. by apply fold_max_attained.
    + pose proof (fold_max_ge ts t). replace (fold_left Z.max ts t) with t by lia.
      by left.
  - intros u [->|Hin]%elem_of_cons; [apply fold_max_ge | by apply fold_max_upper].
Qed.

(** C5, as the code has it: [lastActiveCourseId] is the first course in
    iteration order whose progress map holds the maximum timestamp across
    all courses, provided that maximum is greater than 0; it is null when
    there is no timestamp at all or when no timestamp is greater than 0. *)
Theorem lastActiveCourseId_spec (progressData : list (string * Progress)) :
  lastActiveCourseId progressData
  = match maxTimestamp progressData with
    | Some latest =>
        if bool_decide (0 < latest) then spec_lastActiveCourseId progressData else None
    | None => None
    end.
Proof.
  unfold lastActiveCourseId, spec_lastActiveCourseId.
  rewrite scanProgressData_spec. cbv zeta. simpl.
  unfold maxTimestamp.
  case_bool_decide as Hlen.
  - destruct progressData; [done | discriminate].
  - destruct (allTimestamps progressData) as [|t ts] eqn:Hts; simpl; [done |].
    rewrite fold_max_max. set (latest := fold_left Z.max ts t).
    destruct (decide (0 < latest)) as [Hpos|Hneg].
    + replace (Z.max 0 latest) with latest by lia. done.
    + rewrite !bool_decide_eq_false_2 by lia. done.
Qed.

(** C5 for every progress-data map fails on a timestamp that is not greater
    than 0: course c1 holds the maximum timestamp, yet the scan, which
    starts from [lastTimestamp = 0] and compares strictly, answers null. *)
Lemma lastActiveCourseId_ignores_zero_timestamp :
  lastActiveCourseId [("c1", [("l1", 0)])] = None
  ∧ spec_lastActiveCourseId [("c1", [("l1", 0)])] = Some "c1".
Proof. split; reflexivity. Qed.

Example lastActiveCourseId_latest :
  lastActiveCourseId [("c1", [("l1", 5); ("l2", 9)]); ("c2", [("l3", 12)]); ("c3", [])]
  = Some "c2".
Proof. reflexivity. Qed.

Example lastActiveCourseId_tie :
  lastActiveCourseId [("c1", [("l1", 5)]); ("c2", [("l2", 9)]); ("c3", [("l3", 9)])]
  = Some "c2".
Proof. reflexivity. Qed.

Example lastActiveCourseId_empty_maps :
  lastActiveCourseId [("c1", []); ("c2", [])] = None.
Proof. reflexivity. Qed.

(** ** Toggling a lesson *)

Lemma toggleEntry_twice now1 now2 lessonId (p : Progress) :
  toggleEntry now2 lessonId (toggleEntry now1 lessonId p)
  = if al_has lessonId p then al_delete lessonId p ++ [(lessonId, now2)] else p.
Proof.
  unfold toggleEntry. destruct (al_has lessonId p) eqn:Hhas.
  - assert (lessonId ∉ al_keys (al_delete lessonId p)) as Hgone.
    { rewrite al_keys_delete. by intros [? _]. }
    rewrite (proj2 (al_has_false _ _) Hgone). by apply al_set_fresh.
  - apply al_has_false in Hhas as Hfresh.
    rewrite al_set_fresh by done.
    replace (al_has lessonId (p ++ [(lessonId, now1)])) with true.
    + rewrite al_delete_snoc. by apply al_delete_fresh.
    + symmetry. apply bool_decide_eq_true.
      rewrite <- (al_set_fresh lessonId now1 p) by done.
      by rewrite al_lookup_set_eq.
Qed.

Lemma handleToggleLessonComplete_progress now courseId lessonId w :
  progressOf courseId (storedProgress w) = progressOf courseId (progressData (app w)) →
  let w' := exec (handleToggleLessonComplete now courseId lessonId) w in
  progressOf courseId (progressData (app w'))
  = toggleEntry now lessonId (progressOf courseId (progressData (app w)))
  ∧ progressOf courseId (storedProgress w') = progressOf courseId (progressData (app w')).
Proof.
  intros Hsync. unfold progressOf in *. simpl.
  rewrite !al_lookup_set_eq. simpl. by rewrite Hsync.
Qed.

(** C6, as the model of the storage service has it: a single toggle inserts
    the lesson's entry, stamped with the time of the call, when it is absent
    and removes it when it is present.  Two toggles in succession restore
    the set of completed lessons of the course.  They restore the progress
    map itself when the lesson had no entry; when it had one, the entry is
    back with the timestamp of the second toggle. *)
Theorem handleToggleLessonComplete_twice (now1 now2 : Z) (courseId lessonId : string)
    (w : World) :
  progressOf courseId (storedProgress w) = progressOf courseId (progressData (app w)) →
  let before := progressOf courseId (progressData (app w)) in
  let once :=
    progressOf courseId
      (progressData (app (exec (handleToggleLessonComplete now1 courseId lessonId) w))) in
  let twice :=
    progressOf courseId
      (progressData
         (app (exec (handleToggleLessonComplete now2 courseId lessonId)
                    (exec (handleToggleLessonComplete now1 courseId lessonId) w)))) in
  once = (if al_has lessonId before
          then al_delete lessonId before
          else before ++ [(lessonId, now1)])
  ∧ twice = (if al_has lessonId before
             then al_delete lessonId before ++ [(lessonId, now2)]
             else before)
  ∧ (∀ l, l ∈ al_keys twice ↔ l ∈ al_keys before).
Proof.
  intros Hsync.
  destruct (handleToggleLessonComplete_progress now1 courseId lessonId w Hsync)
    as [Honce Hsync1].
  destruct (handleToggleLessonComplete_progress now2 courseId lessonId _ Hsync1)
    as [Htwice _].
  cbv zeta in *. rewrite Htwice, Honce, toggleEntry_twice.
  set (before := progressOf courseId (progressData (app w))).
  split; [| split].
  - unfold toggleEntry. destruct (al_has lessonId before) eqn:Hhas; [done |].
    apply al_set_fresh. by apply al_has_false.
  - done.
  - intros l. destruct (al_has lessonId before) eqn:Hhas; [| done].
    unfold al_keys at 1. rewrite fmap_app, elem_of_app. fold (al_keys (al_delete lessonId before)).
    rewrite al_keys_delete. simpl. rewrite list_elem_of_singleton.
    assert (lessonId ∈ al_keys before) as Hin.
    { destruct (decide (lessonId ∈ al_keys before)) as [|Hout]; [done |].
      apply al_has_false in Hout. congruence. }
    split; [intros [[_ ?]| ->]; done |].
    intros Hl. destruct (decide (l = lessonId)) as [->|Hne]; [by right | by left].
Qed.

Lemma handleToggleLessonComplete_twice_witness :
  let before := progressOf "c1" (progressData (app sampleWorld)) in
  let once :=
    progressOf "c1"
      (progressData (app (exec (handleToggleLessonComplete 7 "c1" "l2") sampleWorld))) in
  let twice :=
    progressOf "c1"
      (progressData
         (app (exec (handleToggleLessonComplete 9 "c1" "l2")
                    (exec (handleToggleLessonComplete 7 "c1" "l2") sampleWorld)))) in
  once = (if al_has "l2" before then al_delete "l2" before else before ++ [("l2", 7)])
  ∧ twice = (if al_has "l2" before then al_delete "l2" before ++ [("l2", 9)] else before)
  ∧ (∀ l, l ∈ al_keys twice ↔ l ∈ al_keys before).
Proof.
  apply (handleToggleLessonComplete_twice 7 9 "c1" "l2" sampleWorld). reflexivity.
Defined.

(** C6 as a round trip of the map fails when the lesson was already
    complete: lesson l1 of course c1 was completed at time 5; toggling it at
    time 7 and again at time 9 leaves it completed at time 9, not at time 5. *)
Lemma handleToggleLessonComplete_twice_restamps :
  let twice :=
    exec (handleToggleLessonComplete 9 "c1" "l1")
         (exec (handleToggleLessonComplete 7 "c1" "l1") sampleWorld) in
  progressOf "c1" (progressData (app sampleWorld)) = [("l1", 5)]
  ∧ progressOf "c1" (progressData (app twice)) = [("l1", 9)]
  ∧ progressOf "c1" (progressData (app twice))
    ≠ progressOf "c1" (progressData (app sampleWorld)).
Proof. repeat split. discriminate. Qed.

(** ** Generating a course into a folder *)

Lemma handleGenerateCourse_resolved topic level folderId facts generatedCourse w :
  let w' := exec (handleGenerateCourse topic level folderId facts
                                        (Resolved generatedCourse)) w in
  courses (app w') = generatedCourse :: courses (app w)
  ∧ folders (app w')
    = match truthy folderId with
      | Some t =>
          (λ f, if decide (Folder.id f = t)
                then pushCourse (Course.id generatedCourse) f else f)
            <$> folders (app w)
      | None => folders (app w)
      end
  ∧ progressData (app w') = progressData (app w).
Proof.
  unfold handleGenerateCourse, handleGenerateCourse_resume.
  destruct facts as [[fs|e]|]; destruct (truthy folderId); repeat split.
Qed.

Lemma handleGenerateCourse_rejected topic level folderId facts e w :
  let w' := exec (handleGenerateCourse topic level folderId facts (Rejected e)) w in
  courses (app w') = courses (app w)
  ∧ folders (app w') = folders (app w)
  ∧ progressData (app w') = progressData (app w).
Proof. destruct facts as [[fs|e']|]; repeat split. Qed.

Lemma handleGenerateCourse_run_noDangling topic level folderId facts
    (o : Outcome Course.t) w :
  noDangling (app w) →
  noDangling (app (exec (handleGenerateCourse topic level folderId facts o) w)).
Proof.
  intros [Hf Hp]. destruct o as [c|e].
  - destruct (handleGenerateCourse_resolved topic level folderId facts c w)
      as (Hc & Hfs & Hpd).
    split.
    + intros f id. rewrite Hc, Hfs. simpl. intros Hin Hid.
      destruct (truthy folderId) as [t|].
      * apply list_elem_of_fmap in Hin as [f0 [-> Hf0]].
        case_decide.
        -- simpl in Hid. apply elem_of_app in Hid as [Hid|Hid].
           ++ right. eauto.
           ++ apply list_elem_of_singleton in Hid as ->. by left.
        -- right. eauto.
      * right. eauto.
    + intros id. rewrite Hc, Hpd. simpl. intros Hin. right. eauto.
  - destruct (handleGenerateCourse_rejected topic level folderId facts e w)
      as (Hc & Hfs & Hpd).
    split.
    + intros f id. rewrite Hc, Hfs. eauto.
    + intros id. rewrite Hc, Hpd. eauto.
Qed.

(** The continuation writes back the folders of the render it closed over:
    it keeps the state free of dangling references when those folders only
    name courses that are in the list when it resumes. *)
Lemma handleGenerateCourse_resume_noDangling (r : AppState) folderId
    (o : Outcome Course.t) (mid : World) :
  noDangling (app mid) →
  (∀ f id, f ∈ folders r → id ∈ Folder.courseIds f →
           id ∈ Course.id <$> courses (app mid)) →
  noDangling (app (exec (handleGenerateCourse_resume r folderId o) mid)).
Proof.
  intros [Hf Hp] Hr. destruct o as [c|e]; [| by split].
  unfold handleGenerateCourse_resume.
  destruct (truthy folderId) as [t|]; split.
  - intros f id Hin Hid.
    change (f ∈ (λ f, if decide (Folder.id f = t)
                      then pushCourse (Course.id c) f else f) <$> folders r) in Hin.
    change (id ∈ Course.id <$> c :: courses (app mid)).
    apply list_elem_of_fmap in Hin as [f0 [-> Hf0]]. rewrite fmap_cons.
    case_decide.
    + simpl in Hid. apply elem_of_app in Hid as [Hid|Hid].
      * right. eauto.
      * apply list_elem_of_singleton in Hid as ->. by left.
    + right. eauto.
  - intros id Hin. change (id ∈ Course.id <$> c :: courses (app mid)).
    rewrite fmap_cons. right. by apply Hp.
  - intros f id Hin Hid. change (id ∈ Course.id <$> c :: courses (app mid)).
    rewrite fmap_cons. right. by eapply Hf.
  - intros id Hin. change (id ∈ Course.id <$> c :: courses (app mid)).
    rewrite fmap_cons. right. by apply Hp.
Qed.

(** X1: [handleGenerateCourse] keeps the state free of dangling references
    in a run with no other handler in between, whatever the folder id, the
    fun-facts outcome and the outcome of the generation.  When other
    handlers run during the wait, the part before the wait keeps it, and
    the continuation, which writes back the folders it closed over at call
    time, keeps it provided the state it resumes in is free of dangling
    references and still has every course that was in the list at call
    time. *)
Theorem handleGenerateCourse_preserves_noDangling (topic : string)
    (level : KnowledgeLevel) (folderId : option string)
    (facts : option (Outcome (list string))) (o : Outcome Course.t) (w mid : World) :
  noDangling (app w) →
  noDangling (app mid) →
  (∀ id, id ∈ Course.id <$> courses (app w) → id ∈ Course.id <$> courses (app mid)) →
  noDangling (app (exec (handleGenerateCourse topic level folderId facts o) w))
  ∧ noDangling (app (exec (handleGenerateCourse_begin topic level) w))
  ∧ noDangling (app (exec (handleGenerateCourse_resume (app w) folderId o) mid)).
Proof.
  intros Hw Hmid Hkept. split; [by apply handleGenerateCourse_run_noDangling |].
  split; [exact Hw |].
  apply handleGenerateCourse_resume_noDangling; [exact Hmid |].
  intros f id Hf Hid. apply Hkept. destruct Hw as [Hfolders _]. eauto.
Qed.

Lemma handleGenerateCourse_preserves_noDangling_witness :
  let o := Resolved (Course.mk "c3" "Osmosis" "beginner" []) in
  let mid :=
    exec (handleSelectCourse "c2")
         (exec (handleGenerateCourse_begin "Osmosis" "beginner") sampleWorld) in
  noDangling (app (exec (handleGenerateCourse "Osmosis" "beginner" (Some "fB") None o)
                        sampleWorld))
  ∧ noDangling (app (exec (handleGenerateCourse_begin "Osmosis" "beginner") sampleWorld))
  ∧ noDangling (app (exec (handleGenerateCourse_resume (app sampleWorld) (Some "fB") o) mid)).
Proof.
  apply (handleGenerateCourse_preserves_noDangling "Osmosis" "beginner" (Some "fB") None
           (Resolved (Course.mk "c3" "Osmosis" "beginner" [])) sampleWorld
           (exec (handleSelectCourse "c2")
                 (exec (handleGenerateCourse_begin "Osmosis" "beginner") sampleWorld))).
  - exact sampleWorld_noDangling.
  - exact sampleWorld_noDangling.
  - intros id Hid. exact Hid.
Defined.

(** Without that proviso the continuation can leave a dangling reference:
    course c1 is deleted while the generation is pending, and the
    continuation puts back the folders of call time, where folder fA still
    lists c1. *)
Example handleGenerateCourse_resume_after_delete_dangles :
  let o := Resolved (Course.mk "c3" "Osmosis" "beginner" []) in
  let mid :=
    exec (handleDeleteCourse "c1")
         (exec (handleGenerateCourse_begin "Osmosis" "beginner") sampleWorld) in
  noDangling (app mid)
  ∧ ¬ noDangling (app (exec (handleGenerateCourse_resume (app sampleWorld) (Some "fB") o)
                            mid)).
Proof.
  split.
  - apply handleDeleteCourse_preserves. exact sampleWorld_noDangling.
  - intros [Hf _].
    assert ("c1" ∈ ["c3"; "c2"]) as Hin.
    { apply (Hf folderA "c1"); [by left | by left]. }
    revert Hin. not_in_list.
Qed.

(** X2: a folder id that no folder has does not stop the generation: the
    course is created, made active and no error is set; the folders stay as
    they are and are written to storage all the same. *)
Theorem handleGenerateCourse_unknown_folder (topic : string) (level : KnowledgeLevel)
    (folderId : string) (facts : option (Outcome (list string)))
    (generatedCourse : Course.t) (w : World) :
  folderId ≠ "" →
  folderId ∉ Folder.id <$> folders (app w) →
  let m := handleGenerateCourse topic level (Some folderId) facts
                                (Resolved generatedCourse) in
  folders (app (exec m w)) = folders (app w)
  ∧ courses (app (exec m w)) = generatedCourse :: courses (app w)
  ∧ activeCourse (app (exec m w)) = Some generatedCourse
  ∧ error (app (exec m w)) = None
  ∧ StorageSaveFolders (folders (app w)) ∈ trace m w.
Proof.
  intros Hne Hout.
  assert ((λ f, if decide (Folder.id f = folderId)
                then pushCourse (Course.id generatedCourse) f else f)
            <$> folders (app w) = folders (app w)) as Hsame.
  { induction (folders (app w)) as [|f fs IH]; [done |].
    rewrite fmap_cons in Hout. apply not_elem_of_cons in Hout as [Hf Hfs].
    rewrite fmap_cons, decide_False by congruence. by rewrite IH. }
  cbv zeta. unfold handleGenerateCourse, handleGenerateCourse_resume, truthy.
  rewrite decide_False by done.
  destruct facts as [[fs|e]|]; run_handler; rewrite Hsame;
    repeat split; set_solver.
Qed.

Lemma handleGenerateCourse_unknown_folder_witness :
  let m := handleGenerateCourse "Osmosis" "beginner" (Some "fZ") None
                                (Resolved (Course.mk "c3" "Osmosis" "beginner" [])) in
  folders (app (exec m sampleWorld)) = folders (app sampleWorld)
  ∧ courses (app (exec m sampleWorld))
    = Course.mk "c3" "Osmosis" "beginner" [] :: courses (app sampleWorld)
  ∧ activeCourse (app (exec m sampleWorld)) = Some (Course.mk "c3" "Osmosis" "beginner" [])
  ∧ error (app (exec m sampleWorld)) = None
  ∧ StorageSaveFolders (folders (app sampleWorld)) ∈ trace m sampleWorld.
Proof.
  apply (handleGenerateCourse_unknown_folder "Osmosis" "beginner" "fZ" None
           (Course.mk "c3" "Osmosis" "beginner" []) sampleWorld).
  - discriminate.
  - not_in_list.
Defined.

(** ** More on moving a course *)

Lemma js_find_cons {A} (P : A → Prop) `{∀ x, Decision (P x)} (x : A) (xs : list A) :
  js_find P (x :: xs) = if decide (P x) then Some x else js_find P xs.
Proof.
  unfold js_find. simpl. case_decide; [done |].
  by destruct (list_find P xs) as [[i y]|].
Qed.

Lemma js_findIndex_cons {A} (P : A → Prop) `{∀ x, Decision (P x)} (x : A) (xs : list A) :
  js_findIndex P (x :: xs) = if decide (P x) then Some 0%nat else S <$> js_findIndex P xs.
Proof.
  unfold js_findIndex. simpl. case_decide; [done |].
  by destruct (list_find P xs) as [[i y]|].
Qed.

Lemma js_find_found {A} (key : A → string) (k : string) (xs : list A) :
  k ∈ key <$> xs → ∃ x, js_find (λ x, key x = k) xs = Some x ∧ x ∈ xs ∧ key x = k.
Proof.
  induction xs as [|y xs IH]; [by intros ?%elem_of_nil |].
  rewrite fmap_cons, js_find_cons. intros Hin.
  destruct (decide (key y = k)) as [Hy|Hy].
  - exists y. split; [done | split; [by left | done]].
  - apply elem_of_cons in Hin as [Heq|Hin]; [congruence |].
    destruct (IH Hin) as (x & Hx & Hxin & Hk). exists x.
    split; [done | split; [by right | done]].
Qed.

Lemma js_find_Some {A} (P : A → Prop) `{∀ x, Decision (P x)} (xs : list A) x :
  js_find P xs = Some x → x ∈ xs ∧ P x.
Proof.
  induction xs as [|y xs IH]; [done |].
  rewrite js_find_cons. case_decide as Hy.
  - intros [= <-]. split; [by left | done].
  - intros Hx. destruct (IH Hx). split; [by right | done].
Qed.

(** [findIndex] by folder id only looks at the ids. *)
Lemma js_findIndex_ids t (fs gs : list Folder.t) :
  Folder.id <$> fs = Folder.id <$> gs →
  js_findIndex (λ f, Folder.id f = t) fs = js_findIndex (λ f, Folder.id f = t) gs.
Proof.
  revert gs. induction fs as [|f fs IH]; intros [|g gs] Hids; try done.
  rewrite !fmap_cons in Hids. injection Hids as Hid Hrest.
  rewrite !js_findIndex_cons, Hid. case_decide; [done |]. by rewrite (IH gs).
Qed.

Lemma js_findIndex_found t (fs : list Folder.t) :
  t ∈ Folder.id <$> fs →
  ∃ k f, js_findIndex (λ f, Folder.id f = t) fs = Some k
         ∧ fs !! k = Some f ∧ Folder.id f = t.
Proof.
  induction fs as [|g fs IH]; [by intros ?%elem_of_nil |].
  rewrite fmap_cons, js_findIndex_cons. intros Hin.
  destruct (decide (Folder.id g = t)) as [Hg|Hg].
  - by exists 0%nat, g.
  - apply elem_of_cons in Hin as [Heq|Hin]; [congruence |].
    destruct (IH Hin) as (k & f & -> & Hk & Hf). by exists (S k), f.
Qed.

Lemma withoutCourse_idem courseId f :
  withoutCourse courseId (withoutCourse courseId f) = withoutCourse courseId f.
Proof.
  unfold withoutCourse. simpl. f_equal.
  rewrite list_filter_filter. apply list_filter_iff. tauto.
Qed.

Lemma withoutCourse_pushCourse courseId f :
  withoutCourse courseId (pushCourse courseId f) = withoutCourse courseId f.
Proof.
  unfold withoutCourse, pushCourse. simpl. f_equal.
  rewrite filter_app, filter_cons_False by auto. by rewrite filter_nil, app_nil_r.
Qed.

Lemma ids_of_moved courseId k (fs : list Folder.t) :
  Folder.id <$> alter (pushCourse courseId) k (withoutCourse courseId <$> fs)
  = Folder.id <$> fs.
Proof.
  apply list_eq. intros i. rewrite !list_lookup_fmap.
  destruct (decide (i = k)) as [->|Hne].
  - rewrite list_lookup_alter_eq, list_lookup_fmap. by destruct (fs !! k).
  - rewrite list_lookup_alter_ne by (intros ->; done).
    rewrite list_lookup_fmap. by destruct (fs !! i).
Qed.

Lemma strip_of_moved courseId k (fs : list Folder.t) :
  withoutCourse courseId <$> alter (pushCourse courseId) k (withoutCourse courseId <$> fs)
  = withoutCourse courseId <$> fs.
Proof.
  apply list_eq. intros i. rewrite !list_lookup_fmap.
  destruct (decide (i = k)) as [->|Hne].
  - rewrite list_lookup_alter_eq, list_lookup_fmap. destruct (fs !! k); [| done].
    simpl. by rewrite withoutCourse_pushCourse, withoutCourse_idem.
  - rewrite list_lookup_alter_ne by (intros ->; done).
    rewrite list_lookup_fmap. destruct (fs !! i); [| done].
    simpl. by rewrite withoutCourse_idem.
Qed.

Lemma strip_of_strip courseId (fs : list Folder.t) :
  withoutCourse courseId <$> (withoutCourse courseId <$> fs) = withoutCourse courseId <$> fs.
Proof.
  rewrite <- list_fmap_compose. apply list_fmap_ext. intros i f _. simpl.
  apply withoutCourse_idem.
Qed.

Lemma ids_of_strip courseId (fs : list Folder.t) :
  Folder.id <$> (withoutCourse courseId <$> fs) = Folder.id <$> fs.
Proof. rewrite <- list_fmap_compose. by apply list_fmap_ext. Qed.

(** X3: moving the same course to the same target a second time changes
    nothing: the folders after two identical moves are the folders after
    one. *)
Theorem handleMoveCourseToFolder_idempotent (courseId : string)
    (targetFolderId : option string) (w : World) :
  let move := handleMoveCourseToFolder courseId targetFolderId in
  folders (app (exec move (exec move w))) = folders (app (exec move w)).
Proof.
  cbv zeta. rewrite (handleMoveCourseToFolder_folders _ _ (exec _ w)).
  rewrite handleMoveCourseToFolder_folders.
  destruct (truthy targetFolderId) as [t|]; [| apply strip_of_strip].
  destruct (js_findIndex _ (folders (app w))) as [k|] eqn:Hk.
  - rewrite (js_findIndex_ids t _ (folders (app w))) by apply ids_of_moved.
    rewrite Hk. by rewrite strip_of_moved.
  - rewrite (js_findIndex_ids t _ (folders (app w))) by apply ids_of_strip.
    rewrite Hk. apply strip_of_strip.
Qed.

(** X4: when a folder has the target id, the move puts the course into the
    first such folder: that folder keeps its id and name, the course id is
    the last entry of its membership list and occurs there once. *)
Theorem handleMoveCourseToFolder_into_target (courseId targetFolderId : string)
    (w : World) :
  targetFolderId ≠ "" →
  targetFolderId ∈ Folder.id <$> folders (app w) →
  ∃ k f0,
    js_findIndex (λ f, Folder.id f = targetFolderId) (folders (app w)) = Some k
    ∧ folders (app w) !! k = Some f0
    ∧ folders (app (exec (handleMoveCourseToFolder courseId (Some targetFolderId)) w)) !! k
      = Some (Folder.mk targetFolderId (Folder.name f0)
                        (filter (λ id, id ≠ courseId) (Folder.courseIds f0) ++ [courseId]))
    ∧ length (filter (λ id, id = courseId)
                     (filter (λ id, id ≠ courseId) (Folder.courseIds f0) ++ [courseId]))
      = 1%nat.
Proof.
  intros Hne Hin. destruct (js_findIndex_found _ _ Hin) as (k & f0 & Hk & Hf0 & Hid).
  exists k, f0. split; [done | split; [done | split]].
  - rewrite handleMoveCourseToFolder_folders. simpl.
    rewrite decide_False by done. rewrite Hk.
    rewrite list_lookup_alter_eq, list_lookup_fmap, Hf0. simpl.
    unfold pushCourse, withoutCourse. simpl. by rewrite Hid.
  - rewrite filter_app, list_filter_filter.
    rewrite (filter_cons_True _ courseId) by done. rewrite filter_nil.
    rewrite length_app. simpl.
    replace (filter _ (Folder.courseIds f0)) with (@nil string); [done |].
    symmetry. induction (Folder.courseIds f0) as [|x xs IH]; [done |].
    rewrite filter_cons_False; [done |]. intros [-> Hx]. done.
Qed.

Lemma handleMoveCourseToFolder_into_target_witness :
  ∃ k f0,
    js_findIndex (λ f, Folder.id f = "fB") (folders (app sampleWorld)) = Some k
    ∧ folders (app sampleWorld) !! k = Some f0
    ∧ folders (app (exec (handleMoveCourseToFolder "c1" (Some "fB")) sampleWorld)) !! k
      = Some (Folder.mk "fB" (Folder.name f0)
                        (filter (λ id, id ≠ "c1") (Folder.courseIds f0) ++ ["c1"]))
    ∧ length (filter (λ id, id = "c1")
                     (filter (λ id, id ≠ "c1") (Folder.courseIds f0) ++ ["c1"]))
      = 1%nat.
Proof.
  apply (handleMoveCourseToFolder_into_target "c1" "fB" sampleWorld).
  - discriminate.
  - vm_compute. right. left.
Defined.

Lemma elem_of_moved courseId k (fs : list Folder.t) f id :
  f ∈ alter (pushCourse courseId) k (withoutCourse courseId <$> fs) →
  id ∈ Folder.courseIds f →
  id = courseId ∨ ∃ f0, f0 ∈ fs ∧ id ∈ Folder.courseIds f0.
Proof.
  intros [i Hi]%list_elem_of_lookup_1 Hid.
  destruct (decide (i = k)) as [->|Hne].
  - rewrite list_lookup_alter_eq, list_lookup_fmap in Hi.
    destruct (fs !! k) as [f0|] eqn:Hk; [| done]. simpl in Hi.
    injection Hi as <-. simpl in Hid.
    apply elem_of_app in Hid as [Hid|Hid].
    + apply list_elem_of_filter in Hid as [_ Hid]. right. exists f0.
      split; [by eapply list_elem_of_lookup_2 | done].
    + left. by apply list_elem_of_singleton in Hid.
  - rewrite list_lookup_alter_ne in Hi by (intros ->; done).
    apply list_elem_of_lookup_2 in Hi.
    destruct (elem_of_withoutCourse _ _ _ _ Hi Hid) as [_ Hex]. by right.
Qed.

(** X5: moving a course that is in the course list keeps the state free of
    dangling references, whatever the target. *)
Theorem handleMoveCourseToFolder_preserves_noDangling (courseId : string)
    (targetFolderId : option string) (w : World) :
  courseId ∈ Course.id <$> courses (app w) →
  noDangling (app w) →
  noDangling (app (exec (handleMoveCourseToFolder courseId targetFolderId) w)).
Proof.
  intros Hknown [Hf Hp]. split; [| exact Hp].
  intros f id. rewrite handleMoveCourseToFolder_folders.
  change (courses (app (exec (handleMoveCourseToFolder courseId targetFolderId) w)))
    with (courses (app w)).
  assert (∀ g, g ∈ withoutCourse courseId <$> folders (app w) →
               id ∈ Folder.courseIds g → id ∈ Course.id <$> courses (app w)) as Hstrip.
  { intros g Hg Hid. destruct (elem_of_withoutCourse _ _ _ _ Hg Hid) as [_ [f0 [? ?]]].
    eauto. }
  destruct (truthy targetFolderId) as [t|]; [| apply Hstrip].
  destruct (js_findIndex _ (folders (app w))) as [k|]; [| apply Hstrip].
  intros Hin Hid. destruct (elem_of_moved _ _ _ _ _ Hin Hid) as [->|[f0 [? ?]]]; eauto.
Qed.

Lemma handleMoveCourseToFolder_preserves_noDangling_witness :
  noDangling (app (exec (handleMoveCourseToFolder "c1" (Some "fB")) sampleWorld)).
Proof.
  apply (handleMoveCourseToFolder_preserves_noDangling "c1" (Some "fB") sampleWorld).
  - vm_compute. left.
  - exact sampleWorld_noDangling.
Defined.

(** X6: the move does not check that the course exists: moving an id that
    is not in the course list into an existing folder leaves that folder
    with a reference to no course. *)
Theorem handleMoveCourseToFolder_unknown_course_dangles (courseId targetFolderId : string)
    (w : World) :
  targetFolderId ≠ "" →
  targetFolderId ∈ Folder.id <$> folders (app w) →
  courseId ∉ Course.id <$> courses (app w) →
  ¬ noDangling (app (exec (handleMoveCourseToFolder courseId (Some targetFolderId)) w)).
Proof.
  intros Hne Hin Hunknown [Hf _].
  destruct (js_findIndex_found _ _ Hin) as (k & f0 & Hk & Hf0 & Hid).
  apply Hunknown.
  apply (Hf (pushCourse courseId (withoutCourse courseId f0)) courseId).
  - rewrite handleMoveCourseToFolder_folders. simpl.
    rewrite decide_False by done. rewrite Hk.
    apply (list_elem_of_lookup_2 _ k).
    by rewrite list_lookup_alter_eq, list_lookup_fmap, Hf0.
  - simpl. apply elem_of_app. right. by left.
Qed.

Lemma handleMoveCourseToFolder_unknown_course_dangles_witness :
  ¬ noDangling (app (exec (handleMoveCourseToFolder "c9" (Some "fB")) sampleWorld)).
Proof.
  apply (handleMoveCourseToFolder_unknown_course_dangles "c9" "fB" sampleWorld).
  - discriminate.
  - vm_compute. right. left.
  - not_in_list.
Defined.

(** ** Creating, deleting and renaming folders *)

Lemma filter_comm {A} (P Q : A → Prop) `{∀ x, Decision (P x)} `{∀ x, Decision (Q x)}
    (l : list A) :
  filter P (filter Q l) = filter Q (filter P l).
Proof. rewrite !list_filter_filter. apply list_filter_iff. tauto. Qed.

Lemma filter_idem {A} (P : A → Prop) `{∀ x, Decision (P x)} (l : list A) :
  filter P (filter P l) = filter P l.
Proof. rewrite list_filter_filter. apply list_filter_iff. tauto. Qed.

Lemma filter_all {A} (P : A → Prop) `{∀ x, Decision (P x)} (l : list A) :
  (∀ x, x ∈ l → P x) → filter P l = l.
Proof.
  induction l as [|x l IH]; intros Hall; [done |].
  rewrite filter_cons_True by (apply Hall; by left).
  rewrite IH; [done |]. intros y Hy. apply Hall. by right.
Qed.

Lemma string_prefix_inj (p a b : string) : p +:+ a = p +:+ b → a = b.
Proof.
  induction p as [|c p IH]; simpl; [done |]. intros Heq. injection Heq as Heq. auto.
Qed.

(** X7: creating, deleting and renaming a folder each keep the state free
    of dangling references. *)
Theorem folder_handlers_preserve_noDangling (now : Z) (name folderId newName : string)
    (w : World) :
  noDangling (app w) →
  noDangling (app (exec (handleCreateFolder now name) w))
  ∧ noDangling (app (exec (handleDeleteFolder folderId) w))
  ∧ noDangling (app (exec (handleUpdateFolderName folderId newName) w)).
Proof.
  intros [Hf Hp]. repeat split; try exact Hp.
  - intros f id Hin Hid.
    change (f ∈ folders (app w) ++ [Folder.mk ("folder_" +:+ pretty now) name []]) in Hin.
    apply elem_of_app in Hin as [Hin|Hin]; [by eapply Hf |].
    apply list_elem_of_singleton in Hin as ->. by apply elem_of_nil in Hid.
  - intros f id Hin Hid.
    change (f ∈ filter (λ f, Folder.id f ≠ folderId) (folders (app w))) in Hin.
    apply list_elem_of_filter in Hin as [_ Hin]. by eapply Hf.
  - intros f id Hin Hid.
    change (f ∈ (λ f, if decide (Folder.id f = folderId)
                      then Folder.mk (Folder.id f) newName (Folder.courseIds f) else f)
                  <$> folders (app w)) in Hin.
    apply list_elem_of_fmap in Hin as [f0 [-> Hf0]].
    apply (Hf f0); [done |]. by destruct (decide _).
Qed.

Lemma folder_handlers_preserve_noDangling_witness :
  noDangling (app (exec (handleCreateFolder 1700000000000 "Chemistry") sampleWorld))
  ∧ noDangling (app (exec (handleDeleteFolder "fA") sampleWorld))
  ∧ noDangling (app (exec (handleUpdateFolderName "fA" "Life") sampleWorld)).
Proof.
  apply (folder_handlers_preserve_noDangling 1700000000000 "Chemistry" "fA" "Life"
           sampleWorld).
  exact sampleWorld_noDangling.
Defined.

(** X8: two folders created one after the other are appended in that
    order with empty membership lists, and they get the same id exactly
    when the clock gave the same reading for both calls. *)
Theorem handleCreateFolder_ids (now1 now2 : Z) (name1 name2 : string) (w : World) :
  ∃ f1 f2,
    folders (app (exec (handleCreateFolder now2 name2)
                       (exec (handleCreateFolder now1 name1) w)))
    = folders (app w) ++ [f1; f2]
    ∧ Folder.name f1 = name1 ∧ Folder.name f2 = name2
    ∧ Folder.courseIds f1 = [] ∧ Folder.courseIds f2 = []
    ∧ (Folder.id f1 = Folder.id f2 ↔ now1 = now2).
Proof.
  exists (Folder.mk ("folder_" +:+ pretty now1) name1 []),
         (Folder.mk ("folder_" +:+ pretty now2) name2 []).
  split; [| repeat split].
  - change (folders (app (exec (handleCreateFolder now2 name2)
                               (exec (handleCreateFolder now1 name1) w))))
      with ((folders (app w) ++ [Folder.mk ("folder_" +:+ pretty now1) name1 []])
              ++ [Folder.mk ("folder_" +:+ pretty now2) name2 []]).
    by rewrite <- app_assoc.
  - simpl. intros Heq. apply string_prefix_inj in Heq. by apply (inj pretty) in Heq.
  - by intros ->.
Qed.

(** X9: deleting a folder right after creating it gives back the folders
    there were, provided the new id was not already taken. *)
Theorem handleCreateFolder_then_delete (now : Z) (name : string) (w : World) :
  ("folder_" +:+ pretty now) ∉ Folder.id <$> folders (app w) →
  folders (app (exec (handleDeleteFolder ("folder_" +:+ pretty now))
                     (exec (handleCreateFolder now name) w)))
  = folders (app w).
Proof.
  intros Hfresh.
  change (filter (λ f, Folder.id f ≠ "folder_" +:+ pretty now)
                 (folders (app w) ++ [Folder.mk ("folder_" +:+ pretty now) name []])
          = folders (app w)).
  rewrite filter_app, filter_cons_False by (simpl; auto).
  rewrite filter_nil, app_nil_r. apply filter_all.
  intros f Hf Heq. apply Hfresh, list_elem_of_fmap. eauto.
Qed.

Lemma handleCreateFolder_then_delete_witness :
  folders (app (exec (handleDeleteFolder ("folder_" +:+ pretty 1700000000000))
                     (exec (handleCreateFolder 1700000000000 "Chemistry") sampleWorld)))
  = folders (app sampleWorld).
Proof.
  apply (handleCreateFolder_then_delete 1700000000000 "Chemistry" sampleWorld).
  not_in_list.
Defined.

(** X10: renaming touches names only: the folder ids and the membership
    lists are what they were, position by position, and every folder with
    the given id carries the new name. *)
Theorem handleUpdateFolderName_effect (folderId newName : string) (w : World) :
  let w' := exec (handleUpdateFolderName folderId newName) w in
  Folder.id <$> folders (app w') = Folder.id <$> folders (app w)
  ∧ Folder.courseIds <$> folders (app w') = Folder.courseIds <$> folders (app w)
  ∧ (∀ f, f ∈ folders (app w') → Folder.id f = folderId → Folder.name f = newName)
  ∧ (∀ i f f', folders (app w) !! i = Some f → folders (app w') !! i = Some f' →
       Folder.id f ≠ folderId → f' = f).
Proof.
  cbv zeta.
  change (folders (app (exec (handleUpdateFolderName folderId newName) w)))
    with ((λ f, if decide (Folder.id f = folderId)
                then Folder.mk (Folder.id f) newName (Folder.courseIds f) else f)
            <$> folders (app w)).
  repeat split.
  - rewrite <- list_fmap_compose. apply list_fmap_ext. intros i f _. simpl.
    by destruct (decide _).
  - rewrite <- list_fmap_compose. apply list_fmap_ext. intros i f _. simpl.
    by destruct (decide _).
  - intros f [f0 [-> Hf0]]%list_elem_of_fmap. by destruct (decide _).
  - intros i f f' Hi. rewrite list_lookup_fmap, Hi. simpl.
    intros [= <-] Hne. by rewrite decide_False.
Qed.

(** ** Deleting courses, in any order *)

Lemma withoutCourse_comm a b f :
  withoutCourse a (withoutCourse b f) = withoutCourse b (withoutCourse a f).
Proof. unfold withoutCourse. simpl. f_equal. apply filter_comm. Qed.

Lemma handleDeleteCourse_exec courseId w :
  exec (handleDeleteCourse courseId) w
  = mkWorld
      (mkAppState (filter (λ c, Course.id c ≠ courseId) (courses (app w)))
                  (withoutCourse courseId <$> folders (app w))
                  (projects (app w))
                  (al_delete courseId (progressData (app w)))
                  (projectProgressData (app w)) (activeCourse (app w))
                  (activeProject (app w)) (topic (app w)) (error (app w))
                  (funFacts (app w)) (generatingLessonFlashcardId (app w))
                  (preloadedTest (app w)) (exploreModalState (app w)))
      (socratic w)
      (al_delete courseId (storedProgress w)).
Proof. reflexivity. Qed.

(** X11: deletions commute and repeat harmlessly: deleting two courses in
    either order gives the same provider state, and deleting a course a
    second time changes nothing. *)
Theorem handleDeleteCourse_commutes (a b : string) (w : World) :
  app (exec (handleDeleteCourse a) (exec (handleDeleteCourse b) w))
  = app (exec (handleDeleteCourse b) (exec (handleDeleteCourse a) w))
  ∧ app (exec (handleDeleteCourse a) (exec (handleDeleteCourse a) w))
    = app (exec (handleDeleteCourse a) w).
Proof.
  rewrite !handleDeleteCourse_exec. simpl. split.
  - f_equal.
    + apply filter_comm.
    + rewrite <- !list_fmap_compose. apply list_fmap_ext. intros i f _. simpl.
      apply withoutCourse_comm.
    + apply filter_comm.
  - f_equal.
    + apply filter_idem.
    + apply strip_of_strip.
    + apply filter_idem.
Qed.

(** X12: deleting the course that is active does not deselect it: the
    active course stays set to a course that is no longer in the list. *)
Theorem handleDeleteCourse_keeps_active (c : Course.t) (w : World) :
  activeCourse (app w) = Some c →
  let w' := exec (handleDeleteCourse (Course.id c)) w in
  activeCourse (app w') = Some c
  ∧ (c ∉ courses (app w'))
  ∧ Course.id c ∉ Course.id <$> courses (app w').
Proof.
  intros Hactive. cbv zeta. rewrite handleDeleteCourse_exec. simpl.
  split; [done | split].
  - intros [Hne _]%list_elem_of_filter. done.
  - intros [c' [Hid [Hne _]%list_elem_of_filter]]%list_elem_of_fmap. done.
Qed.

Lemma handleDeleteCourse_keeps_active_witness :
  let w := exec (handleSelectCourse "c1") sampleWorld in
  let w' := exec (handleDeleteCourse (Course.id courseC1)) w in
  activeCourse (app w') = Some courseC1
  ∧ (courseC1 ∉ courses (app w'))
  ∧ Course.id courseC1 ∉ Course.id <$> courses (app w').
Proof.
  apply (handleDeleteCourse_keeps_active courseC1 (exec (handleSelectCourse "c1") sampleWorld)).
  reflexivity.
Defined.

(** ** Saving a note *)

Lemma handleSaveNote_found courseId lessonId note c w :
  js_find (λ c, Course.id c = courseId) (courses (app w)) = Some c →
  let u := withModules (mapLesson lessonId (withNotes note) (Course.modules c)) c in
  let w' := exec (handleSaveNote courseId lessonId note) w in
  courses (app w') = replaceCourse u (courses (app w))
  ∧ activeCourse (app w')
    = (if decide (Course.id <$> activeCourse (app w) = Some courseId)
       then Some u else activeCourse (app w))
  ∧ trace (handleSaveNote courseId lessonId note) w = [StorageUpdateCourse u].
Proof.
  intros Hc. cbv zeta. unfold handleSaveNote. run_handler. rewrite Hc. simpl.
  by destruct (decide _).
Qed.

Lemma lessonsOf_mapLesson lessonId (g : Lesson.t → Lesson.t) c :
  lessonsOf (withModules (mapLesson lessonId g (Course.modules c)) c)
  = (λ l, if decide (Lesson.id l = lessonId) then g l else l) <$> lessonsOf c.
Proof.
  unfold lessonsOf, withModules, mapLesson. simpl.
  induction (Course.modules c) as [|m ms IH]; [done |].
  rewrite !fmap_cons. simpl. by rewrite fmap_app, IH.
Qed.

Lemma js_find_replaceCourse (u : Course.t) (cs : list Course.t) :
  Course.id u ∈ Course.id <$> cs →
  js_find (λ c, Course.id c = Course.id u) (replaceCourse u cs) = Some u.
Proof.
  unfold replaceCourse. induction cs as [|x cs IH]; [by intros ?%elem_of_nil |].
  rewrite !fmap_cons, js_find_cons. intros Hin.
  destruct (decide (Course.id x = Course.id u)) as [Hx|Hx].
  - by rewrite decide_True.
  - rewrite decide_False by done.
    apply elem_of_cons in Hin as [Heq|Hin]; [congruence | by apply IH].
Qed.

Lemma ids_of_replaceCourse (u : Course.t) (cs : list Course.t) :
  Course.id <$> replaceCourse u cs = Course.id <$> cs.
Proof.
  unfold replaceCourse. rewrite <- list_fmap_compose. apply list_fmap_ext.
  intros i c _. simpl. by destruct (decide _).
Qed.

Lemma replaceCourse_absent (u : Course.t) (cs : list Course.t) :
  Course.id u ∉ Course.id <$> cs → replaceCourse u cs = cs.
Proof.
  unfold replaceCourse. induction cs as [|x cs IH]; [done |].
  rewrite !fmap_cons. intros [Hx Hcs]%not_elem_of_cons.
  rewrite decide_False by congruence. by rewrite IH.
Qed.

Lemma replaceCourse_insert (u c : Course.t) (cs : list Course.t) i :
  NoDup (Course.id <$> cs) → cs !! i = Some c → Course.id u = Course.id c →
  replaceCourse u cs = <[i := u]> cs.
Proof.
  revert i. induction cs as [|x cs IH]; intros i Hnd Hi Hid; [done |].
  rewrite fmap_cons in Hnd. apply NoDup_cons in Hnd as [Hx Hnd].
  destruct i as [|i]; simpl in Hi.
  - injection Hi as ->. unfold replaceCourse. rewrite fmap_cons.
    rewrite decide_True by done. simpl. f_equal.
    apply replaceCourse_absent. by rewrite Hid.
  - unfold replaceCourse. rewrite fmap_cons. rewrite decide_False.
    + simpl. f_equal. by apply IH.
    + intros Heq. apply Hx. rewrite Heq, Hid. apply list_elem_of_fmap.
      exists c. split; [done | by eapply list_elem_of_lookup_2].
Qed.

Lemma js_find_unique (c : Course.t) (cs : list Course.t) i :
  NoDup (Course.id <$> cs) → cs !! i = Some c →
  js_find (λ x, Course.id x = Course.id c) cs = Some c.
Proof.
  revert i. induction cs as [|x cs IH]; intros i Hnd Hi; [done |].
  rewrite fmap_cons in Hnd. apply NoDup_cons in Hnd as [Hx Hnd].
  rewrite js_find_cons. destruct i as [|i]; simpl in Hi.
  - injection Hi as ->. by rewrite decide_True.
  - rewrite decide_False; [by eapply IH |].
    intros Heq. apply Hx. rewrite Heq. apply list_elem_of_fmap.
    exists c. split; [done | by eapply list_elem_of_lookup_2].
Qed.

(** X13: a saved note can be read back: after [handleSaveNote] on a course
    that exists, the course found under that id carries the note on every
    lesson with the given lesson id, and that course is what was handed to
    [storageService.updateCourse]. *)
Theorem handleSaveNote_sets_note (courseId lessonId note : string) (w : World) :
  courseId ∈ Course.id <$> courses (app w) →
  let w' := exec (handleSaveNote courseId lessonId note) w in
  ∃ c',
    js_find (λ c, Course.id c = courseId) (courses (app w')) = Some c'
    ∧ (∀ l, l ∈ lessonsOf c' → Lesson.id l = lessonId → Lesson.notes l = Some note)
    ∧ trace (handleSaveNote courseId lessonId note) w = [StorageUpdateCourse c'].
Proof.
  intros Hin. destruct (js_find_found Course.id _ _ Hin) as (c & Hc & Hcin & Hid).
  destruct (handleSaveNote_found _ lessonId note _ _ Hc) as (Hcs & _ & Htr).
  cbv zeta. rewrite Hcs, Htr.
  set (u := withModules (mapLesson lessonId (withNotes note) (Course.modules c)) c).
  exists u. split; [| split; [| done]].
  - subst courseId. exact (js_find_replaceCourse u (courses (app w)) Hin).
  - intros l. unfold u. rewrite lessonsOf_mapLesson.
    intros [l0 [-> Hl0]]%list_elem_of_fmap.
    destruct (decide (Lesson.id l0 = lessonId)); [done |]. simpl. done.
Qed.

Lemma handleSaveNote_sets_note_witness :
  let w' := exec (handleSaveNote "c1" "l2" "remember RuBisCO") sampleWorld in
  ∃ c',
    js_find (λ c, Course.id c = "c1") (courses (app w')) = Some c'
    ∧ (∀ l, l ∈ lessonsOf c' → Lesson.id l = "l2" → Lesson.notes l = Some "remember RuBisCO")
    ∧ trace (handleSaveNote "c1" "l2" "remember RuBisCO") sampleWorld
      = [StorageUpdateCourse c'].
Proof.
  apply (handleSaveNote_sets_note "c1" "l2" "remember RuBisCO" sampleWorld).
  vm_compute. left.
Defined.

(** X14: with unique course ids, saving a note rewrites exactly one entry of
    the course list, in place; in that course only the notes of the lessons
    with the given id change, and the ids of all courses stay as they
    were. *)
Theorem handleSaveNote_changes_one_course (lessonId note : string) (c : Course.t)
    (i : nat) (w : World) :
  NoDup (Course.id <$> courses (app w)) →
  courses (app w) !! i = Some c →
  let w' := exec (handleSaveNote (Course.id c) lessonId note) w in
  ∃ u,
    courses (app w') = <[i := u]> (courses (app w))
    ∧ Course.id u = Course.id c ∧ Course.title u = Course.title c
    ∧ Course.knowledgeLevel u = Course.knowledgeLevel c
    ∧ lessonsOf u
      = (λ l, if decide (Lesson.id l = lessonId) then withNotes note l else l)
          <$> lessonsOf c
    ∧ Course.id <$> courses (app w') = Course.id <$> courses (app w).
Proof.
  intros Hnd Hi. pose proof (js_find_unique _ _ _ Hnd Hi) as Hc.
  destruct (handleSaveNote_found _ lessonId note _ _ Hc) as (Hcs & _ & _).
  cbv zeta. rewrite Hcs.
  exists (withModules (mapLesson lessonId (withNotes note) (Course.modules c)) c).
  split; [by eapply replaceCourse_insert |].
  repeat split; [apply lessonsOf_mapLesson | apply ids_of_replaceCourse].
Qed.

Lemma sampleWorld_course_ids_NoDup : NoDup (Course.id <$> courses (app sampleWorld)).
Proof.
  simpl. apply NoDup_cons. split; [not_in_list |].
  apply NoDup_cons. split; [not_in_list | apply NoDup_nil_2].
Qed.

Lemma handleSaveNote_changes_one_course_witness :
  let w' := exec (handleSaveNote (Course.id courseC1) "l2" "remember RuBisCO") sampleWorld in
  ∃ u,
    courses (app w') = <[0%nat := u]> (courses (app sampleWorld))
    ∧ Course.id u = Course.id courseC1 ∧ Course.title u = Course.title courseC1
    ∧ Course.knowledgeLevel u = Course.knowledgeLevel courseC1
    ∧ lessonsOf u
      = (λ l, if decide (Lesson.id l = "l2") then withNotes "remember RuBisCO" l else l)
          <$> lessonsOf courseC1
    ∧ Course.id <$> courses (app w') = Course.id <$> courses (app sampleWorld).
Proof.
  apply (handleSaveNote_changes_one_course "l2" "remember RuBisCO" courseC1 0 sampleWorld).
  - exact sampleWorld_course_ids_NoDup.
  - reflexivity.
Defined.

(** X15: saving a note keeps the active course in step with the list: when
    the active course has the given id it becomes the very course now found
    under that id in the list, otherwise it is left alone. *)
Theorem handleSaveNote_active_course (courseId lessonId note : string) (w : World) :
  courseId ∈ Course.id <$> courses (app w) →
  let w' := exec (handleSaveNote courseId lessonId note) w in
  activeCourse (app w')
  = if decide (Course.id <$> activeCourse (app w) = Some courseId)
    then js_find (λ c, Course.id c = courseId) (courses (app w'))
    else activeCourse (app w).
Proof.
  intros Hin. destruct (js_find_found Course.id _ _ Hin) as (c & Hc & Hcin & Hid).
  destruct (handleSaveNote_found _ lessonId note _ _ Hc) as (Hcs & Hac & _).
  cbv zeta. rewrite Hac, Hcs. case_decide; [| done].
  set (u := withModules (mapLesson lessonId (withNotes note) (Course.modules c)) c).
  subst courseId. symmetry. exact (js_find_replaceCourse u (courses (app w)) Hin).
Qed.

Lemma handleSaveNote_active_course_witness :
  let w := exec (handleSelectCourse "c1") sampleWorld in
  let w' := exec (handleSaveNote "c1" "l1" "chlorophyll a and b") w in
  activeCourse (app w')
  = if decide (Course.id <$> activeCourse (app w) = Some "c1")
    then js_find (λ c, Course.id c = "c1") (courses (app w'))
    else activeCourse (app w).
Proof.
  apply (handleSaveNote_active_course "c1" "l1" "chlorophyll a and b"
           (exec (handleSelectCourse "c1") sampleWorld)).
  vm_compute. left.
Defined.

Lemma map_lessons_absent lessonId (g : Lesson.t → Lesson.t) (ls : list Lesson.t) :
  lessonId ∉ Lesson.id <$> ls →
  (λ l, if decide (Lesson.id l = lessonId) then g l else l) <$> ls = ls.
Proof.
  induction ls as [|l ls IH]; [done |].
  rewrite !fmap_cons. intros [Hl Hls]%not_elem_of_cons.
  rewrite decide_False by congruence. by rewrite IH.
Qed.

Lemma mapLesson_absent lessonId (g : Lesson.t → Lesson.t) (ms : list CourseModule.t) :
  lessonId ∉ Lesson.id <$> concat (CourseModule.lessons <$> ms) →
  mapLesson lessonId g ms = ms.
Proof.
  unfold mapLesson. induction ms as [|m ms IH]; [done |].
  rewrite !fmap_cons. simpl. rewrite fmap_app. intros Hout.
  apply not_elem_of_app in Hout as [Hm Hms].
  rewrite map_lessons_absent by done. rewrite IH by done. by destruct m.
Qed.

(** X16: a note for a lesson id the course does not have changes no course
    (ids being unique), yet the course is still written to storage: only an
    unknown course id makes [handleSaveNote] return early. *)
Theorem handleSaveNote_unknown_lesson (lessonId note : string) (c : Course.t)
    (i : nat) (w : World) :
  NoDup (Course.id <$> courses (app w)) →
  courses (app w) !! i = Some c →
  lessonId ∉ Lesson.id <$> lessonsOf c →
  courses (app (exec (handleSaveNote (Course.id c) lessonId note) w)) = courses (app w)
  ∧ trace (handleSaveNote (Course.id c) lessonId note) w = [StorageUpdateCourse c].
Proof.
  intros Hnd Hi Hout. pose proof (js_find_unique _ _ _ Hnd Hi) as Hc.
  destruct (handleSaveNote_found _ lessonId note _ _ Hc) as (Hcs & _ & Htr).
  cbv zeta in *. rewrite Hcs, Htr.
  rewrite mapLesson_absent by exact Hout.
  assert (withModules (Course.modules c) c = c) as -> by by destruct c.
  split; [| done].
  rewrite (replaceCourse_insert c c _ i) by done. by apply list_insert_id.
Qed.

Lemma handleSaveNote_unknown_lesson_witness :
  courses (app (exec (handleSaveNote (Course.id courseC1) "l9" "lost") sampleWorld))
  = courses (app sampleWorld)
  ∧ trace (handleSaveNote (Course.id courseC1) "l9" "lost") sampleWorld
    = [StorageUpdateCourse courseC1].
Proof.
  apply (handleSaveNote_unknown_lesson "l9" "lost" courseC1 0 sampleWorld).
  - exact sampleWorld_course_ids_NoDup.
  - reflexivity.
  - not_in_list.
Defined.

(** ** Generating flashcards for a lesson *)

(** X17: with an active course, a rejected flashcard generation amounts
    to nothing: the state ends as it began with the generating marker at
    null, so the shared error string is not set, and nothing is written to
    storage. *)
Theorem handleGenerateLessonFlashcards_rejected (lessonId : string) (e : Thrown)
    (c : Course.t) (w : World) :
  activeCourse (app w) = Some c →
  let m := handleGenerateLessonFlashcards lessonId (Rejected e) in
  exec m w = exec (setGeneratingLessonFlashcardId None) w
  ∧ error (app (exec m w)) = error (app w)
  ∧ Forall (λ ev, match ev with
                  | StorageUpdateCourse _ | StorageSaveCourse _ => False
                  | _ => True
                  end) (trace m w).
Proof.
  intros Hactive. cbv zeta. unfold handleGenerateLessonFlashcards. run_handler.
  rewrite Hactive. simpl.
  destruct (js_find _ _) as [lesson|]; simpl; rewrite ?Hactive;
    (split; [done | split; [done | repeat constructor]]).
Qed.

Lemma handleGenerateLessonFlashcards_rejected_witness :
  let w := exec (handleSelectCourse "c1") sampleWorld in
  let m := handleGenerateLessonFlashcards "l1" (Rejected OtherValue) in
  exec m w = exec (setGeneratingLessonFlashcardId None) w
  ∧ error (app (exec m w)) = error (app w)
  ∧ Forall (λ ev, match ev with
                  | StorageUpdateCourse _ | StorageSaveCourse _ => False
                  | _ => True
                  end) (trace m w).
Proof.
  apply (handleGenerateLessonFlashcards_rejected "l1" OtherValue courseC1
           (exec (handleSelectCourse "c1") sampleWorld)).
  reflexivity.
Defined.

(** X18: when the active course has no lesson with the given id, the
    generation client is never asked, whatever it would have answered: the
    only call is the console error for "Lesson not found", and the state
    ends as it began with the generating marker at null. *)
Theorem handleGenerateLessonFlashcards_missing_lesson (lessonId : string)
    (o : Outcome (list Flashcard)) (c : Course.t) (w : World) :
  activeCourse (app w) = Some c →
  lessonId ∉ Lesson.id <$> lessonsOf c →
  exec (handleGenerateLessonFlashcards lessonId o) w
  = exec (setGeneratingLessonFlashcardId None) w
  ∧ trace (handleGenerateLessonFlashcards lessonId o) w
    = [ConsoleError "Failed to generate lesson flashcards"
                    (ErrorObject "Lesson not found")].
Proof.
  intros Hactive Hout. apply (js_find_no_id Lesson.id) in Hout. unfold lessonsOf in Hout.
  unfold handleGenerateLessonFlashcards. run_handler.
  rewrite Hactive. simpl. rewrite Hout. simpl. by rewrite ?Hactive.
Qed.

Lemma handleGenerateLessonFlashcards_missing_lesson_witness :
  let w := exec (handleSelectCourse "c1") sampleWorld in
  exec (handleGenerateLessonFlashcards "l9" (Resolved ["card"])) w
  = exec (setGeneratingLessonFlashcardId None) w
  ∧ trace (handleGenerateLessonFlashcards "l9" (Resolved ["card"])) w
    = [ConsoleError "Failed to generate lesson flashcards"
                    (ErrorObject "Lesson not found")].
Proof.
  apply (handleGenerateLessonFlashcards_missing_lesson "l9" (Resolved ["card"]) courseC1
           (exec (handleSelectCourse "c1") sampleWorld)).
  - reflexivity.
  - not_in_list.
Defined.

(** X19: when the lesson is in the active course and the generation client
    answers, the cards are installed on every lesson with that id, the
    updated course becomes the active course and is the one written to
    storage, the course list keeps its ids, and the generating marker is
    back at null. *)
Theorem handleGenerateLessonFlashcards_success (lessonId : string)
    (generatedCards : list Flashcard) (c : Course.t) (w : World) :
  activeCourse (app w) = Some c →
  lessonId ∈ Lesson.id <$> lessonsOf c →
  let m := handleGenerateLessonFlashcards lessonId (Resolved generatedCards) in
  ∃ u,
    activeCourse (app (exec m w)) = Some u
    ∧ Course.id u = Course.id c
    ∧ lessonsOf u
      = (λ l, if decide (Lesson.id l = lessonId)
              then withFlashcards generatedCards l else l) <$> lessonsOf c
    ∧ (∀ l, l ∈ lessonsOf u → Lesson.id l = lessonId →
         Lesson.flashcards l = Some generatedCards)
    ∧ StorageUpdateCourse u ∈ trace m w
    ∧ courses (app (exec m w)) = replaceCourse u (courses (app w))
    ∧ Course.id <$> courses (app (exec m w)) = Course.id <$> courses (app w)
    ∧ generatingLessonFlashcardId (app (exec m w)) = None.
Proof.
  intros Hactive Hin.
  destruct (js_find_found Lesson.id _ _ Hin) as (lesson & Hfind & _ & _).
  unfold lessonsOf in Hfind.
  exists (withModules (mapLesson lessonId (withFlashcards generatedCards)
                                 (Course.modules c)) c).
  cbv zeta. unfold handleGenerateLessonFlashcards. run_handler.
  rewrite Hactive. simpl. rewrite Hfind. simpl.
  split; [done | split; [done | split; [apply lessonsOf_mapLesson | split]]].
  - intros l. rewrite lessonsOf_mapLesson.
    intros [l0 [-> Hl0]]%list_elem_of_fmap.
    destruct (decide (Lesson.id l0 = lessonId)); [done |]. simpl. done.
  - split; [by right; left | split; [done | split; [apply ids_of_replaceCourse | done]]].
Qed.

Lemma handleGenerateLessonFlashcards_success_witness :
  let w := exec (handleSelectCourse "c1") sampleWorld in
  let m := handleGenerateLessonFlashcards "l1" (Resolved ["What absorbs light?"]) in
  ∃ u,
    activeCourse (app (exec m w)) = Some u
    ∧ Course.id u = Course.id courseC1
    ∧ lessonsOf u
      = (λ l, if decide (Lesson.id l = "l1")
              then withFlashcards ["What absorbs light?"] l else l) <$> lessonsOf courseC1
    ∧ (∀ l, l ∈ lessonsOf u → Lesson.id l = "l1" →
         Lesson.flashcards l = Some ["What absorbs light?"])
    ∧ StorageUpdateCourse u ∈ trace m w
    ∧ courses (app (exec m w)) = replaceCourse u (courses (app w))
    ∧ Course.id <$> courses (app (exec m w)) = Course.id <$> courses (app w)
    ∧ generatingLessonFlashcardId (app (exec m w)) = None.
Proof.
  apply (handleGenerateLessonFlashcards_success "l1" ["What absorbs light?"] courseC1
           (exec (handleSelectCourse "c1") sampleWorld)).
  - reflexivity.
  - vm_compute. left.
Defined.

(** ** Projects *)

(** X20: [handleCreateProject] mirrors the course generation.  On success
    the project goes to the head of the project list, is written to
    storage, becomes the active project, the error is null and the view
    ends on the project.  On failure the error is, for an [Error], the
    formatted text around the message of that failure, and for any other
    thrown value the same text around the fixed wording; projects and
    active project are what they were, nothing is saved, and the view ends
    on the project list. *)
Theorem handleCreateProject_outcomes (projectTopic : string)
    (facts : option (Outcome (list string))) (generatedProject : Project.t)
    (e : Thrown) (v : View.t) (w : World) :
  let ok := handleCreateProject projectTopic facts (Resolved generatedProject) in
  let ko := handleCreateProject projectTopic facts (Rejected e) in
  (projects (app (exec ok w)) = generatedProject :: projects (app w)
   ∧ StorageSaveProject generatedProject ∈ trace ok w
   ∧ activeProject (app (exec ok w)) = Some generatedProject
   ∧ error (app (exec ok w)) = None
   ∧ viewAfter (trace ok w) v = View.projectDetail)
  ∧ (match e with
     | ErrorObject msg =>
         error (app (exec ko w))
         = Some ("Failed to generate the project. " +:+ msg +:+ ". Please try again.")
         ∧ ∃ text, error (app (exec ko w)) = Some text ∧ contains text msg
     | OtherValue =>
         error (app (exec ko w))
         = Some "Failed to generate the project. An unknown error occurred.. Please try again."
     end
     ∧ projects (app (exec ko w)) = projects (app w)
     ∧ activeProject (app (exec ko w)) = activeProject (app w)
     ∧ viewAfter (trace ko w) v = View.projects
     ∧ Forall (λ ev, match ev with StorageSaveProject _ => False | _ => True end)
              (trace ko w)).
Proof.
  destruct e as [msg|]; destruct facts as [[fs|e']|]; cbn; repeat split;
    first [by right; right; right; left | by right; right; left
          | eexists; split; [reflexivity |];
            apply (contains_middle "Failed to generate the project. " msg
                                   ". Please try again.")
          | repeat constructor].
Qed.

(** X21: deleting a project takes it out of the project list and drops its
    progress entry, calls both storage deletions, and leaves the active
    project alone even when it is the deleted one; a second deletion
    changes nothing. *)
Theorem handleDeleteProject_effect (projectId : string) (w : World) :
  let w' := execX (handleDeleteProject projectId) w in
  (projectId ∉ Project.id <$> projects (app w'))
  ∧ al_lookup projectId (projectProgressData (app w')) = None
  ∧ activeProject (app w') = activeProject (app w)
  ∧ courses (app w') = courses (app w)
  ∧ traceX (handleDeleteProject projectId) w
    = [StorageDeleteProject projectId; StorageDeleteProjectProgress projectId]
  ∧ execX (handleDeleteProject projectId) w' = w'.
Proof.
  cbv zeta. split; [| split; [| repeat split]].
  - intros [p [Hid Hin]]%list_elem_of_fmap.
    change (p ∈ filter (λ p, Project.id p ≠ projectId) (projects (app w))) in Hin.
    apply list_elem_of_filter in Hin as [Hne _]. done.
  - change (al_lookup projectId (al_delete projectId (projectProgressData (app w))) = None).
    apply al_lookup_delete_eq.
  - unfold execX, handleDeleteProject, mbind, MX_bind, lift, render. simpl.
    f_equal. f_equal; apply filter_idem.
Qed.

(** ** Replies that arrive late *)

(** X22: a reply that arrives after the Socratic modal was closed puts the
    whole conversation back: the session stays closed with an empty
    original text, but its history is the history at the time of sending
    plus the user turn and the model turn. *)
Theorem socratic_reply_after_close (message : string) (o : Outcome string) (w : World) :
  let sent := exec (handleSendSocraticMessage_begin message (socratic w)) w in
  let closed := exec handleCloseSocraticModal sent in
  let late := exec (handleSendSocraticMessage_resume message (socratic w) o) closed in
  history (socratic closed) = []
  ∧ isOpen (socratic late) = false
  ∧ originalText (socratic late) = ""
  ∧ isLoading (socratic late) = false
  ∧ history (socratic late)
    = history (socratic w)
        ++ [ChatMessage.mk user message;
            ChatMessage.mk model match o with
                                 | Resolved aiResponse => aiResponse
                                 | Rejected _ => fallbackReply
                                 end].
Proof.
  destruct o; cbn; repeat split; by rewrite <- app_assoc.
Qed.

(** X23: two messages in flight overwrite each other: when a second message
    is sent before the first reply arrives, the first reply rebuilds the
    history from the first snapshot, so the second user turn is gone, and
    the second reply then rebuilds it from the second snapshot, so the first
    model turn is gone: four turns were exchanged and three are kept. *)
Theorem socratic_overlapping_sends (m1 m2 r1 r2 : string) (w : World) :
  let h := history (socratic w) in
  let w1 := exec (handleSendSocraticMessage_begin m1 (socratic w)) w in
  let w2 := exec (handleSendSocraticMessage_begin m2 (socratic w1)) w1 in
  let w3 := exec (handleSendSocraticMessage_resume m1 (socratic w) (Resolved r1)) w2 in
  let w4 := exec (handleSendSocraticMessage_resume m2 (socratic w1) (Resolved r2)) w3 in
  history (socratic w2) = h ++ [ChatMessage.mk user m1; ChatMessage.mk user m2]
  ∧ history (socratic w3) = h ++ [ChatMessage.mk user m1; ChatMessage.mk model r1]
  ∧ history (socratic w4)
    = h ++ [ChatMessage.mk user m1; ChatMessage.mk user m2; ChatMessage.mk model r2]
  ∧ length (history (socratic w4)) = (length h + 3)%nat.
Proof.
  intros h w1 w2 w3 w4.
  assert (history (socratic w4)
          = h ++ [ChatMessage.mk user m1; ChatMessage.mk user m2; ChatMessage.mk model r2])
    as H4.
  { subst h w1 w2 w3 w4. simpl. by rewrite <- !app_assoc. }
  split; [subst h w1 w2; simpl; by rewrite <- !app_assoc |].
  split; [subst h w1 w2 w3; simpl; by rewrite <- !app_assoc |].
  split; [exact H4 |].
  rewrite H4, length_app. done.
Qed.

(** ** Exploring related topics *)

(** X24: [handleExploreTopics] swallows a failure of the generation client:
    whatever the outcome the modal ends open, not loading, titled with the
    course, and the shared error string is left alone; the topics are the
    generated ones on success and none on failure.  A reply that arrives
    after [closeExploreModal] leaves the modal closed. *)
Theorem handleExploreTopics_outcomes (course : Course.t) (topics : list RelatedTopic)
    (e : Thrown) (o : Outcome (list RelatedTopic)) (w : World) :
  let ok := execX (handleExploreTopics course (Resolved topics)) w in
  let ko := execX (handleExploreTopics course (Rejected e)) w in
  let late :=
    execX (handleExploreTopics_resume o)
          (exec closeExploreModal (execX (handleExploreTopics_begin course) w)) in
  exploreModalState (app ok) = mkExploreModalState true false (Course.title course) topics
  ∧ exploreModalState (app ko) = mkExploreModalState true false (Course.title course) []
  ∧ error (app ok) = error (app w) ∧ error (app ko) = error (app w)
  ∧ exploreModalState (app (execX (handleExploreTopics_begin course) w))
    = mkExploreModalState true true (Course.title course) []
  ∧ em_isOpen (exploreModalState (app late)) = false
  ∧ em_isLoading (exploreModalState (app late)) = false.
Proof. destruct o; repeat split. Qed.

(** ** More on the last active course *)

Lemma elem_of_allTimestamps (progressData : list (string * Progress)) u :
  u ∈ allTimestamps progressData
  ↔ ∃ entry, entry ∈ progressData ∧ u ∈ al_values entry.2.
Proof.
  unfold allTimestamps. induction progressData as [|e pd IH].
  - split; [by intros ?%elem_of_nil | by intros [? [?%elem_of_nil _]]].
  - rewrite fmap_cons. simpl. rewrite elem_of_app, IH. split.
    + intros [Hu|[e' [He' Hu]]]; [exists e; split; [by left | done] |].
      exists e'. split; [by right | done].
    + intros [e' [He' Hu]]. apply elem_of_cons in He' as [->|He']; [by left |].
      right. eauto.
Qed.

Lemma fold_max_le (ts : list Z) (lo t : Z) :
  lo ≤ t → (∀ u, u ∈ ts → u ≤ t) → fold_left Z.max ts lo ≤ t.
Proof.
  revert lo. induction ts as [|u ts IH]; intros lo Hlo Hall; simpl; [done |].
  apply IH.
  - pose proof (Hall u ltac:(by left)). lia.
  - intros v Hv. apply Hall. by right.
Qed.

Lemma js_find_None_inv {A} (P : A → Prop) `{∀ x, Decision (P x)} (xs : list A) x :
  js_find P xs = None → x ∈ xs → ¬ P x.
Proof.
  induction xs as [|y xs IH]; [by intros _ ?%elem_of_nil |].
  rewrite js_find_cons. case_decide as Hy; [done |].
  intros Hnone [->|Hin]%elem_of_cons; [done | by apply IH].
Qed.

(** What the scan answers, when it answers a course: an entry of the
    progress data that holds the running maximum, which is positive. *)
Lemma lastActiveCourseId_entry (progressData : list (string * Progress)) courseId :
  lastActiveCourseId progressData = Some courseId →
  let latest := fold_left Z.max (allTimestamps progressData) 0 in
  0 < latest
  ∧ ∃ progressMap, (courseId, progressMap) ∈ progressData
                   ∧ latest ∈ al_values progressMap.
Proof.
  unfold lastActiveCourseId. case_bool_decide; [done |].
  rewrite scanProgressData_spec. cbv zeta. simpl.
  case_bool_decide as Hpos; [| done].
  match goal with
  | |- context [js_find ?P progressData] =>
      destruct (js_find P progressData) as [[cid pm]|] eqn:Hfind; [| done]
  end.
  simpl. intros [= <-]. split; [done |].
  apply js_find_Some in Hfind as [Hin Hholds]. eauto.
Qed.

(** X25: when [lastActiveCourseId] names a course, that course has an
    entry in the progress data whose map holds a timestamp that is greater
    than 0 and at least as large as every timestamp of every course. *)
Theorem lastActiveCourseId_sound (progressData : list (string * Progress))
    (courseId : string) :
  lastActiveCourseId progressData = Some courseId →
  ∃ progressMap t,
    (courseId, progressMap) ∈ progressData
    ∧ t ∈ al_values progressMap
    ∧ 0 < t
    ∧ ∀ u, u ∈ allTimestamps progressData → u ≤ t.
Proof.
  intros Hlast. destruct (lastActiveCourseId_entry _ _ Hlast) as (Hpos & pm & Hin & Hholds).
  exists pm, (fold_left Z.max (allTimestamps progressData) 0).
  split; [done | split; [done | split; [done |]]].
  intros u Hu. by apply fold_max_upper.
Qed.

Lemma lastActiveCourseId_sound_witness :
  ∃ progressMap t,
    ("c2", progressMap) ∈ [("c1", [("l1", 5); ("l2", 9)]); ("c2", [("l3", 12)])]
    ∧ t ∈ al_values progressMap
    ∧ 0 < t
    ∧ ∀ u, u ∈ allTimestamps [("c1", [("l1", 5); ("l2", 9)]); ("c2", [("l3", 12)])] → u ≤ t.
Proof.
  apply (lastActiveCourseId_sound [("c1", [("l1", 5); ("l2", 9)]); ("c2", [("l3", 12)])] "c2").
  reflexivity.
Defined.

(** X26: a deleted course is never the last active course: whatever
    [lastActiveCourseId] names right after [handleDeleteCourse] is another
    course, one that had a progress entry before the deletion. *)
Theorem lastActiveCourseId_after_delete (courseId lastCourseId : string) (w : World) :
  lastActiveCourseId (progressData (app (exec (handleDeleteCourse courseId) w)))
  = Some lastCourseId →
  lastCourseId ≠ courseId ∧ lastCourseId ∈ al_keys (progressData (app w)).
Proof.
  rewrite handleDeleteCourse_progressData. intros Hlast.
  destruct (lastActiveCourseId_entry _ _ Hlast) as (_ & pm & Hin & _).
  apply al_keys_delete, list_elem_of_fmap. by exists (lastCourseId, pm).
Qed.

Lemma lastActiveCourseId_after_delete_witness :
  "c2" ≠ "c1" ∧ "c2" ∈ al_keys (progressData (app sampleWorldTwo)).
Proof.
  apply (lastActiveCourseId_after_delete "c1" "c2" sampleWorldTwo). reflexivity.
Defined.

Lemma elem_of_al_set {V} k (v : V) (l : list (string * V)) e :
  e ∈ al_set k v l → e = (k, v) ∨ e ∈ l.
Proof.
  induction l as [|[k' v'] l IH]; simpl.
  - intros ?%list_elem_of_singleton. by left.
  - case_decide.
    + intros [->|Hin]%elem_of_cons; [by left | right; by right].
    + intros [->|Hin]%elem_of_cons; [right; by left |].
      destruct (IH Hin) as [->|Hl]; [by left | right; by right].
Qed.

Lemma al_set_elem {V} k (v : V) (l : list (string * V)) : (k, v) ∈ al_set k v l.
Proof.
  induction l as [|[k' v'] l IH]; simpl; [by left |].
  case_decide; [by left | by right].
Qed.

(** X27: completing a lesson now makes its course the last active one:
    when the progress map merged under a course id holds a timestamp that
    is positive, is the largest of that map and is later than every
    timestamp recorded so far, [lastActiveCourseId] of the merged progress
    data is that course id. *)
Theorem lastActiveCourseId_after_merge (progressData : list (string * Progress))
    (courseId : string) (newProgress : Progress) (t : Z) :
  t ∈ al_values newProgress →
  0 < t →
  (∀ u, u ∈ al_values newProgress → u ≤ t) →
  (∀ u, u ∈ allTimestamps progressData → u < t) →
  lastActiveCourseId (al_set courseId newProgress progressData) = Some courseId.
Proof.
  intros Ht Hpos Hnew Hold.
  set (merged := al_set courseId newProgress progressData).
  assert ((courseId, newProgress) ∈ merged) as Hentry by apply al_set_elem.
  assert (fold_left Z.max (allTimestamps merged) 0 = t) as Hlatest.
  { apply Z.le_antisymm.
    - apply fold_max_le; [lia |]. intros u [e [He Hu]]%elem_of_allTimestamps.
      apply elem_of_al_set in He as [->|He]; [by apply Hnew |].
      apply Z.lt_le_incl, Hold, elem_of_allTimestamps. eauto.
    - apply fold_max_upper, elem_of_allTimestamps. by exists (courseId, newProgress). }
  unfold lastActiveCourseId. rewrite bool_decide_eq_false_2.
  - rewrite scanProgressData_spec. cbv zeta. simpl. rewrite Hlatest.
    rewrite bool_decide_eq_true_2 by done.
    match goal with
    | |- context [js_find ?P merged] =>
        destruct (js_find P merged) as [[cid pm]|] eqn:Hfind
    end.
    + apply js_find_Some in Hfind as [Hin Hholds]. simpl in *.
      apply elem_of_al_set in Hin as [[= -> ->]|Hin]; [done |].
      exfalso. apply (Z.lt_irrefl t), Hold, elem_of_allTimestamps. by exists (cid, pm).
    + exfalso. by apply (js_find_None_inv _ _ _ Hfind Hentry).
  - unfold al_keys. rewrite length_fmap. intros Hlen.
    apply length_zero_iff_nil in Hlen. rewrite Hlen in Hentry.
    by apply elem_of_nil in Hentry.
Qed.

Lemma lastActiveCourseId_after_merge_witness :
  lastActiveCourseId
    (al_set "c1" [("l1", 5); ("l2", 20)] [("c1", [("l1", 5)]); ("c2", [("l3", 12)])])
  = Some "c1".
Proof.
  apply (lastActiveCourseId_after_merge [("c1", [("l1", 5)]); ("c2", [("l3", 12)])]
           "c1" [("l1", 5); ("l2", 20)] 20).
  - vm_compute. right. left.
  - lia.
  - intros u Hu. simpl in Hu.
    repeat (apply elem_of_cons in Hu as [->|Hu]; [lia |]). by apply elem_of_nil in Hu.
  - intros u Hu. vm_compute in Hu.
    repeat (apply elem_of_cons in Hu as [->|Hu]; [lia |]). by apply elem_of_nil in Hu.
Defined.

(** ** The shell's views *)

(** X28: one render pass settles the view: after the [setView] that
    [renderContent] issues for a detail view with nothing to show, the next
    render shows a screen and issues no further [setView]; the world is not
    touched. *)
Theorem rerender_settles (a : Shell) :
  (renderContent (rerender a)).2 = None
  ∧ (renderContent (rerender a)).1 ≠ Nothing
  ∧ rerender (rerender a) = rerender a
  ∧ world (rerender a) = world a.
Proof.
  destruct a as [v w]. unfold rerender, renderContent. simpl.
  destruct v; simpl; try (by repeat split);
    [destruct (activeCourse (app w)) eqn:Hc | destruct (activeProject (app w)) eqn:Hp];
    simpl; rewrite ?Hc, ?Hp; by repeat split.
Qed.

(** X29: generating a course from the shell passes through the generating
    view and ends on the course or on the canvas: on success the screen is
    the detail of the generated course, with no redirect; on failure it is
    the dashboard, and the course that was active before stays active. *)
Theorem dispatch_handleGenerateCourse (topic : string) (level : KnowledgeLevel)
    (folderId : option string) (facts : option (Outcome (list string)))
    (generatedCourse : Course.t) (e : Thrown) (a : Shell) :
  let ok := dispatch (handleGenerateCourse topic level folderId facts
                                           (Resolved generatedCourse)) a in
  let ko := dispatch (handleGenerateCourse topic level folderId facts (Rejected e)) a in
  view (dispatch (handleGenerateCourse_begin topic level) a) = View.generating
  ∧ renderContent ok = (CourseDetail generatedCourse, None)
  ∧ renderContent ko = (Dashboard, None)
  ∧ activeCourse (app (world ko)) = activeCourse (app (world a)).
Proof.
  destruct a as [v w]. unfold dispatch, renderContent, handleGenerateCourse,
    handleGenerateCourse_resume. simpl.
  destruct facts as [[fs|e']|]; destruct (truthy folderId); by repeat split.
Qed.

(** X30: what the screen shows after a course is picked on the dashboard:
    the first course with that id when there is one; when there is none,
    the view still switches to the course detail, which shows the course
    that was active before, or falls back to the dashboard when no course
    was active, as it is after [handleBackToCanvas]. *)
Theorem onSelectCourse_screen (courseId : string) (a : Shell) :
  renderContent (rerender (onSelectCourse courseId a))
  = match js_find (λ c, Course.id c = courseId) (courses (app (world a))) with
    | Some c => (CourseDetail c, None)
    | None =>
        match activeCourse (app (world a)) with
        | Some c => (CourseDetail c, None)
        | None => (Dashboard, None)
        end
    end
  ∧ renderContent (rerender (onSelectCourse courseId (handleBackToCanvas a)))
    = match js_find (λ c, Course.id c = courseId) (courses (app (world a))) with
      | Some c => (CourseDetail c, None)
      | None => (Dashboard, None)
      end.
Proof.
  destruct a as [v w].
  unfold onSelectCourse, handleBackToCanvas, rerender, renderContent, handleSelectCourse.
  run_handler.
  destruct (js_find _ (courses (app w))) as [c|]; simpl; [by split |].
  destruct (activeCourse (app w)) eqn:Hc; simpl; rewrite ?Hc; by split.
Qed.
